(** * Lead extraction and merge pipeline of [streamlit_app.py]

    A shallow embedding of the functions [extract_lead_data],
    [update_lead_info], [save_leads_to_csv], the "Export Leads" handler and
    the two places that cut the fenced JSON out of an assistant message
    before it is displayed, together with the properties of that pipeline.

    - Python strings are modelled by [string]; a character is one of the 256
      values of [ascii], read as the code points below 256.  Indices are
      [Z], as [str.find] answers [-1].
    - Python values are the type [pyval]; a dict is an association list in
      insertion order.  A Python dict holds a key once: [well_formed] says
      so of a value, and is assumed where a property needs it.
    - The session state is passed explicitly: the registry
      [st.session_state.leads] is a [list dict], the clock is an argument.
      [update_lead_info] takes its record by value: the one call, line 138,
      passes the object that [json.loads] has just built, which no record
      of the registry shares.
    - [json.loads] and pandas are libraries, not code of the program: the
      first is a parameter [json_loads]; of the second the shape of the
      table and the CSV layout are modelled, and the text that pandas gives
      to a cell is a parameter [cell_text]. *)

From Stdlib Require Import ZArith List String Ascii Bool Lia QArith.
Import ListNotations.

Set Warnings "-register-all".

Open Scope string_scope.
Open Scope Z_scope.

(* ================================================================== *)
(** * Python string primitives used by the program                     *)
(* ================================================================== *)

(** [s[n:]] and [s[:n]] for a natural number [n]. *)
Fixpoint drop (n : nat) (s : string) : string :=
  match n, s with
  | O, _ => s
  | S _, EmptyString => EmptyString
  | S k, String _ t => drop k t
  end.

Fixpoint take (n : nat) (s : string) : string :=
  match n, s with
  | O, _ => EmptyString
  | S _, EmptyString => EmptyString
  | S k, String c t => String c (take k t)
  end.

Definition len (s : string) : Z := Z.of_nat (String.length s).

(** Offset of the leftmost occurrence of [sub] in [s]. *)
Fixpoint index_of (sub s : string) : option nat :=
  if prefix sub s then Some O
  else match s with
       | EmptyString => None
       | String _ t => option_map S (index_of sub t)
       end.

(** [s.find(sub, start)]: a negative [start] counts from the end and is
    then clipped to 0; the answer is [-1] when [sub] does not occur at or
    after [start]. *)
Definition find (s sub : string) (start : Z) : Z :=
  let n := len s in
  let st := if start <? 0 then Z.max 0 (start + n) else start in
  if n - st <? len sub then -1
  else match index_of sub (drop (Z.to_nat st) s) with
       | Some i => st + Z.of_nat i
       | None => -1
       end.

(** Normalisation of a slice bound against a length [n]. *)
Definition clamp (n i : Z) : Z :=
  if i <? 0 then Z.max 0 (i + n) else Z.min i n.

(** [s[a:b]]. *)
Definition slice (s : string) (a b : Z) : string :=
  let a' := clamp (len s) a in
  let b' := clamp (len s) b in
  take (Z.to_nat (b' - a')) (drop (Z.to_nat a') s).

(** [s[:b]]. *)
Definition slice_to (s : string) (b : Z) : string := slice s 0 b.

(** [str.isspace] on the characters below 256: TAB, LF, VT, FF, CR, the
    four separators FS GS RS US, the space, NEL and the no-break space. *)
Definition isspace (c : ascii) : bool :=
  let n := nat_of_ascii c in
  ((9 <=? n) && (n <=? 13) || (28 <=? n) && (n <=? 32)
   || (n =? 133) || (n =? 160))%nat.

Fixpoint lstrip (s : string) : string :=
  match s with
  | EmptyString => EmptyString
  | String c t => if isspace c then lstrip t else s
  end.

Fixpoint rstrip (s : string) : string :=
  match s with
  | EmptyString => EmptyString
  | String c t =>
      match rstrip t with
      | EmptyString => if isspace c then EmptyString else String c EmptyString
      | r => String c r
      end
  end.

(** [s.strip()]. *)
Definition strip (s : string) : string := rstrip (lstrip s).

(** What a Python call does: it returns a value or raises. *)
Inductive result (A : Type) : Type :=
| Returns (a : A)
| Raises (exc : string).
Arguments Returns {A} a.
Arguments Raises {A} exc.

(** The loop of [s.split(sep)]: cut at the leftmost occurrence, go on in
    the rest.  Each round consumes at least one character when [sep] is not
    empty, so [String.length s] rounds are enough. *)
Fixpoint split_loop (fuel : nat) (sep s : string) : list string :=
  match fuel with
  | O => [s]
  | S f =>
      match index_of sep s with
      | None => [s]
      | Some i =>
          take i s :: split_loop f sep (drop (i + String.length sep) s)
      end
  end.

(** [s.split(sep)]; an empty separator is a [ValueError]. *)
Definition split (s sep : string) : result (list string) :=
  match sep with
  | EmptyString => Raises "ValueError"
  | _ => Returns (split_loop (String.length s) sep s)
  end.

(* ================================================================== *)
(** * Python values, as [json.loads] builds them                       *)
(* ================================================================== *)

(** A Python float: not-a-number, an infinity, or a finite value given by
    the rational it denotes. *)
Inductive pyfloat : Type :=
| FNan
| FInf (negative : bool)
| FFin (q : Q).

(** A dict keeps its keys in insertion order, so it is an association
    list; [json.loads] never builds one with a repeated key. *)
Inductive pyval : Type :=
| PNone
| PBool (b : bool)
| PInt (z : Z)
| PFloat (f : pyfloat)
| PStr (s : string)
| PList (l : list pyval)
| PDict (d : list (string * pyval)).

Definition dict : Type := list (string * pyval).

(** A float is false when it is zero. *)
Definition float_truthy (f : pyfloat) : bool :=
  match f with
  | FFin q => negb (Qeq_bool q 0)
  | _ => true
  end.

(** [bool(v)], the test behind [if v] and [if not v]. *)
Definition truthy (v : pyval) : bool :=
  match v with
  | PNone => false
  | PBool b => b
  | PInt z => negb (z =? 0)
  | PFloat f => float_truthy f
  | PStr s => negb (s =? "")%string
  | PList l => match l with [] => false | _ :: _ => true end
  | PDict d => match d with [] => false | _ :: _ => true end
  end.

(** Numbers compare by value across [bool], [int] and [float]. *)
Definition as_number (v : pyval) : option pyfloat :=
  match v with
  | PBool b => Some (FFin (if b then 1 else 0)%Q)
  | PInt z => Some (FFin (inject_Z z))
  | PFloat f => Some f
  | _ => None
  end.

Definition float_eq (x y : pyfloat) : bool :=
  match x, y with
  | FInf a, FInf b => Bool.eqb a b
  | FFin p, FFin q => Qeq_bool p q
  | _, _ => false
  end.

Definition is_nan (v : pyval) : bool :=
  match v with PFloat FNan => true | _ => false end.

Fixpoint lookup (k : string) (d : dict) : option pyval :=
  match d with
  | [] => None
  | (k', v) :: t => if (k' =? k)%string then Some v else lookup k t
  end.

Definition all2 {A B : Type} (f : A -> B -> bool)
  : list A -> list B -> bool :=
  fix all2 (l : list A) (m : list B) : bool :=
    match l, m with
    | [], [] => true
    | x :: l', y :: m' => f x y && all2 l' m'
    | _, _ => false
    end.

(** [a == b].  Lists compare element by element, dicts key by key whatever
    the order.  Inside a container CPython first tests whether the two items
    are the same object, and the [NaN] of [json.loads] is one shared object:
    two such items count as equal although [NaN == NaN] is false. *)
Fixpoint py_eq (a b : pyval) {struct a} : bool :=
  match a, b with
  | PNone, PNone => true
  | PStr s, PStr t => (s =? t)%string
  | PList l, PList m =>
      all2 (fun x y => is_nan x && is_nan y || py_eq x y) l m
  | PDict d, PDict e =>
      (List.length d =? List.length e)%nat &&
      forallb (fun kx =>
                 match lookup (fst kx) e with
                 | Some y => is_nan (snd kx) && is_nan y || py_eq (snd kx) y
                 | None => false
                 end) d
  | _, _ =>
      match as_number a, as_number b with
      | Some x, Some y => float_eq x y
      | _, _ => false
      end
  end.

(** Equality of two items of a container. *)
Definition item_eq (x y : pyval) : bool :=
  is_nan x && is_nan y || py_eq x y.

(** [d.get(k)]: [None] when the key is missing. *)
Definition get (d : dict) (k : string) : pyval :=
  match lookup k d with Some v => v | None => PNone end.

(** [d[k] = v]: an existing key keeps its place, a new key goes last. *)
Fixpoint dict_set (k : string) (v : pyval) (d : dict) : dict :=
  match d with
  | [] => [(k, v)]
  | (k', v') :: t =>
      if (k' =? k)%string then (k, v) :: t else (k', v') :: dict_set k v t
  end.

(** [d.update(other)]. *)
Definition dict_update (d other : dict) : dict :=
  fold_left (fun acc kv => dict_set (fst kv) (snd kv) acc) other d.

Definition keys (d : dict) : list string := map fst d.

(* ================================================================== *)
(** * The program                                                      *)
(* ================================================================== *)

(** What the page shows through [st.error], [st.warning], [st.success] and
    [st.download_button]. *)
Inductive notice : Type :=
| StError (msg : string)
| StWarning (msg : string)
| StSuccess (msg : string)
| StDownloadButton (label data file_name mime : string).

Definition fence_open : string := "```json".
Definition fence_close : string := "```".

Section Extractor.

(** [json.loads] of the Python library: the parsed value, or the text of
    the exception it raised. *)
Variable json_loads : string -> result pyval.

(** Lines 51-61.  The value returned, and what [st.error] showed. *)
Definition extract_lead_data (response : string) : pyval * list notice :=
  let json_start := find response fence_open 0 in
  let json_end := find response fence_close (json_start + 6) in
  if negb (json_start =? -1) && negb (json_end =? -1) then
    let json_str := strip (slice response (json_start + 7) json_end) in
    match json_loads json_str with
    | Returns v => (v, [])
    | Raises e => (PDict [], [StError ("Error extracting lead data: " ++ e)])
    end
  else (PDict [], []).

End Extractor.

(** Lines 69-72: the scan for the first lead with the incoming email.
    [None] when the loop runs to its end. *)
Fixpoint scan_leads (lead_data : dict) (leads : list dict)
  : option (list dict) :=
  match leads with
  | [] => None
  | lead :: rest =>
      if py_eq (get lead "email") (get lead_data "email")
      then Some (dict_update lead lead_data :: rest)
      else option_map (cons lead) (scan_leads lead_data rest)
  end.

(** Lines 63-73, on the registry [st.session_state.leads]; [now] is
    [datetime.now().isoformat()].  Item assignment on anything but a dict
    is a [TypeError]. *)
Definition update_lead_info (now : string) (lead_data : pyval)
    (leads : list dict) : result (list dict) :=
  if negb (truthy lead_data) then Returns leads
  else
    match lead_data with
    | PDict d =>
        let lead_data := dict_set "timestamp" (PStr now) d in
        if truthy (get lead_data "email") then
          match scan_leads lead_data leads with
          | Some leads' => Returns leads'
          | None => Returns (leads ++ [lead_data])%list
          end
        else Returns (leads ++ [lead_data])%list
    | _ => Raises "TypeError"
    end.

(** Lines 137-138: extraction, then merge. *)
Definition extract_and_update (json_loads : string -> result pyval)
    (now response : string) (leads : list dict) : result (list dict) :=
  update_lead_info now (fst (extract_lead_data json_loads response)) leads.

(** A message of the transcript. *)
Record message : Type := Message { role : string; content : string }.

(** Lines 120-125: the text shown for a message of the history. *)
Definition history_content (m : message) : string :=
  let content := content m in
  if (role m =? "assistant")%string then
    let json_start := find content fence_open 0 in
    if negb (json_start =? -1) then slice_to content json_start
    else content
  else content.

(** Line 139: the text shown for a fresh reply. *)
Definition display_response (response : string) : result string :=
  match split response fence_open with
  | Returns (x :: _) => Returns x
  | Returns [] => Raises "IndexError"
  | Raises e => Raises e
  end.

(** ** Export (lines 75-81 and 102-112) *)

Definition newline : string := String "010"%char EmptyString.

Definition comma : ascii := ","%char.
Definition line_feed : ascii := "010"%char.
Definition carriage_return : ascii := "013"%char.
Definition double_quote : ascii := "034"%char.

Fixpoint join (sep : string) (l : list string) : string :=
  match l with
  | [] => ""
  | [x] => x
  | x :: t => x ++ sep ++ join sep t
  end.

Section Exporter.

(** pandas is a library.  [cell_text column cell] is the text it writes for
    the value [cell] found in a column that holds the values [column];
    [None] is a value missing from a record.  pandas chooses the type of a
    column, and with it the text of each cell, from all the values of the
    column. *)
Variable cell_text : list (option pyval) -> option pyval -> string.

(** Whether the [csv] module also quotes a field that holds a carriage
    return when lines end with a line feed: it depends on the version of
    Python. *)
Variable quote_cr : bool.

(** [pd.DataFrame(leads)]: one column per key, in the order the keys are
    first met, and one row per record. *)
Definition add_column (cols : list string) (kv : string * pyval)
  : list string :=
  if existsb (String.eqb (fst kv)) cols then cols else (cols ++ [fst kv])%list.

Definition columns (leads : list dict) : list string :=
  fold_left (fun cols lead => fold_left add_column lead cols) leads [].

Definition column (leads : list dict) (c : string) : list (option pyval) :=
  map (lookup c) leads.

Definition row (leads : list dict) (lead : dict) : list string :=
  map (fun c => cell_text (column leads c) (lookup c lead)) (columns leads).

(** [csv.writer] as pandas sets it: fields separated by a comma, lines ended
    by [os.linesep], here the line feed of a POSIX system, a field put
    between double quotes only when it holds a character that needs it, and
    a double quote inside written twice. *)
Definition special (c : ascii) : bool :=
  Ascii.eqb c comma || Ascii.eqb c double_quote || Ascii.eqb c line_feed
  || quote_cr && Ascii.eqb c carriage_return.

Fixpoint has_special (field : string) : bool :=
  match field with
  | EmptyString => false
  | String c t => special c || has_special t
  end.

Fixpoint double_quotes (field : string) : string :=
  match field with
  | EmptyString => EmptyString
  | String c t =>
      if Ascii.eqb c double_quote
      then String c (String c (double_quotes t))
      else String c (double_quotes t)
  end.

Definition csv_field (field : string) : string :=
  if has_special field
  then String double_quote (double_quotes field ++ String double_quote "")
  else field.

(** [writer.writerow(fields)]; a line made of one empty field is written as
    two double quotes. *)
Definition csv_row (fields : list string) : string :=
  match fields with
  | [EmptyString] => String double_quote (String double_quote newline)
  | _ => join "," (map csv_field fields) ++ newline
  end.

(** [df.to_csv(index=False)]: the names of the columns, then the rows. *)
Definition to_csv (leads : list dict) : string :=
  fold_right append ""
    (map csv_row (columns leads :: map (row leads) leads)).

(** Lines 75-81; [file] is the content of [leads.csv], if it exists. *)
Definition save_leads_to_csv (leads : list dict) (file : option string)
  : bool * option string :=
  match leads with
  | _ :: _ => (true, Some (to_csv leads))
  | [] => (false, file)
  end.

(** Lines 102-112: one click on "Export Leads". *)
Definition export_leads (leads : list dict) (file : option string)
  : list notice * option string :=
  let '(ok, file') := save_leads_to_csv leads file in
  if ok then
    ([StSuccess "Leads exported to leads.csv";
      StDownloadButton "Download CSV" (to_csv leads) "leads.csv" "text/csv"],
     file')
  else ([StWarning "No leads to export"], file').

End Exporter.

(* ================================================================== *)
(** * Notions used to state the properties                             *)
(* ================================================================== *)

(** [sub] occurs in [s] at offset [i]. *)
Definition occurs_at (sub s : string) (i : nat) : Prop :=
  exists pre post, s = pre ++ sub ++ post /\ String.length pre = i.

Definition occurs (sub s : string) : Prop := exists i, occurs_at sub s i.

(** [sub] occurs at offset [i] of [s] and nowhere before. *)
Definition first_at (sub s : string) (i : nat) : Prop :=
  occurs_at sub s i /\ forall j, (j < i)%nat -> ~ occurs_at sub s j.

(** The outcome of line 58 on the text [body] found between the fences. *)
Definition block_outcome (json_loads : string -> result pyval)
    (body : string) : pyval * list notice :=
  match json_loads (strip body) with
  | Returns v => (v, [])
  | Raises e => (PDict [], [StError ("Error extracting lead data: " ++ e)])
  end.

(** A message cut at its leftmost "```json", if it has one. *)
Definition cut_at_fence (s : string) : string :=
  match index_of fence_open s with
  | Some i => take i s
  | None => s
  end.

(** The record as line 67 leaves it. *)
Definition stamped (now : string) (d : dict) : dict :=
  dict_set "timestamp" (PStr now) d.

(** A record without its [timestamp] field. *)
Definition strip_timestamp (d : dict) : dict :=
  filter (fun kv => negb (fst kv =? "timestamp")%string) d.

Fixpoint distinct (l : list string) : bool :=
  match l with
  | [] => true
  | k :: t => negb (existsb (String.eqb k) t) && distinct t
  end.

(** No dict of the value repeats a key. *)
Fixpoint well_formed (v : pyval) : bool :=
  match v with
  | PList l => forallb well_formed l
  | PDict d =>
      distinct (map fst d) && forallb (fun kv => well_formed (snd kv)) d
  | _ => true
  end.

(** The registries the program can build: [st.session_state.leads] starts
    empty (line 18) and only [update_lead_info] writes it, with a Python
    value for argument. *)
Inductive reachable : list dict -> Prop :=
| reachable_empty : reachable []
| reachable_update now lead_data leads leads' :
    reachable leads ->
    well_formed lead_data = true ->
    update_lead_info now lead_data leads = Returns leads' ->
    reachable leads'.

(** The test of line 70 between two records. *)
Definition same_email (lead lead' : dict) : bool :=
  py_eq (get lead "email") (get lead' "email").

(** Two records, the first one met earlier by the scan, do not hold the same
    non-empty email. *)
Definition emails_differ (lead lead' : dict) : Prop :=
  truthy (get lead "email") = true ->
  truthy (get lead' "email") = true ->
  same_email lead lead' = false.

(** No two records hold the same non-empty email. *)
Definition unique_emails (leads : list dict) : Prop :=
  forall i j lead lead',
    i <> j ->
    nth_error leads i = Some lead ->
    nth_error leads j = Some lead' ->
    truthy (get lead "email") = true ->
    truthy (get lead' "email") = true ->
    same_email lead lead' = false.

(** Every record is a Python dict: no key twice, at any depth. *)
Definition well_formed_leads (leads : list dict) : Prop :=
  Forall (fun lead => well_formed (PDict lead) = true) leads.

(** Two records hold the same non-empty email, as values. *)
Definition share_email (lead lead' : dict) : Prop :=
  truthy (get lead "email") = true /\ get lead' "email" = get lead "email".

(** Only the float [NaN], which [==] finds equal to nothing, is the non-empty
    email of two records at once. *)
Definition shared_only_nan (leads : list dict) : Prop :=
  forall i j lead lead',
    i <> j ->
    nth_error leads i = Some lead ->
    nth_error leads j = Some lead' ->
    share_email lead lead' ->
    get lead "email" = PFloat FNan.

(** ** Reading a CSV text back *)





(* ================================================================== *)
(** * A reader for plain JSON texts                                    *)
(* ================================================================== *)

(** The theorems below hold for whatever [json.loads] answers.  To run the
    program on concrete replies, [json_reader] reads the JSON texts made of
    objects, arrays, strings with the one-letter escapes, integers and the
    five literals [true false null NaN Infinity]; it refuses the other
    texts, among them the numbers with a fraction or an exponent and the
    [\u] escapes, which [json.loads] accepts. *)
Module JsonReader.

Definition dquote : ascii := "034"%char.
Definition backslash : ascii := "092"%char.

Definition is_ws (c : ascii) : bool :=
  let n := nat_of_ascii c in
  ((n =? 32) || (n =? 9) || (n =? 10) || (n =? 13))%nat.

Fixpoint skip_ws (s : string) : string :=
  match s with
  | String c t => if is_ws c then skip_ws t else s
  | EmptyString => s
  end.

Definition unescape (c : ascii) : option ascii :=
  match c with
  | "034"%char => Some "034"%char
  | "092"%char => Some "092"%char
  | "/"%char => Some "/"%char
  | "b"%char => Some "008"%char
  | "f"%char => Some "012"%char
  | "n"%char => Some "010"%char
  | "r"%char => Some "013"%char
  | "t"%char => Some "009"%char
  | _ => None
  end.

(** The text after an opening quote, up to the closing one. *)
Fixpoint read_string (s : string) : option (string * string) :=
  match s with
  | EmptyString => None
  | String c t =>
      if Ascii.eqb c dquote then Some (EmptyString, t)
      else if Ascii.eqb c backslash then
        match t with
        | String e t' =>
            match unescape e, read_string t' with
            | Some c', Some (str, rest) => Some (String c' str, rest)
            | _, _ => None
            end
        | EmptyString => None
        end
      else if (nat_of_ascii c <? 32)%nat then None
      else match read_string t with
           | Some (str, rest) => Some (String c str, rest)
           | None => None
           end
  end.

Definition digit (c : ascii) : option Z :=
  let n := nat_of_ascii c in
  if ((48 <=? n) && (n <=? 57))%nat then Some (Z.of_nat n - 48) else None.

Fixpoint read_digits (acc : Z) (s : string) : Z * string :=
  match s with
  | String c t =>
      match digit c with
      | Some d => read_digits (10 * acc + d) t
      | None => (acc, s)
      end
  | EmptyString => (acc, s)
  end.

Definition starts_fraction (s : string) : bool :=
  match s with
  | String c _ =>
      Ascii.eqb c "."%char || Ascii.eqb c "e"%char || Ascii.eqb c "E"%char
  | EmptyString => false
  end.

(** [0] or a digit from 1 to 9 followed by digits. *)
Definition read_natural (s : string) : option (Z * string) :=
  match s with
  | String c t =>
      match digit c with
      | Some 0 => if starts_fraction t then None else Some (0, t)
      | Some d =>
          let '(n, rest) := read_digits d t in
          if starts_fraction rest then None else Some (n, rest)
      | None => None
      end
  | EmptyString => None
  end.

Definition read_literal (s : string) : option (pyval * string) :=
  if prefix "true" s then Some (PBool true, drop 4 s)
  else if prefix "false" s then Some (PBool false, drop 5 s)
  else if prefix "null" s then Some (PNone, drop 4 s)
  else if prefix "NaN" s then Some (PFloat FNan, drop 3 s)
  else if prefix "Infinity" s then Some (PFloat (FInf false), drop 8 s)
  else if prefix "-Infinity" s then Some (PFloat (FInf true), drop 9 s)
  else match s with
       | String "-"%char t =>
           match read_natural t with
           | Some (n, rest) => Some (PInt (- n), rest)
           | None => None
           end
       | _ =>
           match read_natural s with
           | Some (n, rest) => Some (PInt n, rest)
           | None => None
           end
       end.

Fixpoint read_value (fuel : nat) (s : string) : option (pyval * string) :=
  match fuel with
  | O => None
  | S f =>
      match skip_ws s with
      | String "["%char t =>
          match skip_ws t with
          | String "]"%char rest => Some (PList [], rest)
          | _ => read_items f t []
          end
      | String "{"%char t =>
          match skip_ws t with
          | String "}"%char rest => Some (PDict [], rest)
          | _ => read_members f t []
          end
      | String c t as s' =>
          if Ascii.eqb c dquote then
            match read_string t with
            | Some (str, rest) => Some (PStr str, rest)
            | None => None
            end
          else read_literal s'
      | EmptyString => None
      end
  end

with read_items (fuel : nat) (s : string) (acc : list pyval)
  : option (pyval * string) :=
  match fuel with
  | O => None
  | S f =>
      match read_value f s with
      | Some (v, rest) =>
          match skip_ws rest with
          | String ","%char rest' => read_items f rest' (v :: acc)
          | String "]"%char rest' => Some (PList (rev (v :: acc)), rest')
          | _ => None
          end
      | None => None
      end
  end

with read_members (fuel : nat) (s : string) (acc : dict)
  : option (pyval * string) :=
  match fuel with
  | O => None
  | S f =>
      match skip_ws s with
      | String c t =>
          if Ascii.eqb c dquote then
            match read_string t with
            | Some (k, rest) =>
                match skip_ws rest with
                | String ":"%char rest1 =>
                    match read_value f rest1 with
                    | Some (v, rest2) =>
                        match skip_ws rest2 with
                        | String ","%char rest3 =>
                            read_members f rest3 (dict_set k v acc)
                        | String "}"%char rest3 =>
                            Some (PDict (dict_set k v acc), rest3)
                        | _ => None
                        end
                    | None => None
                    end
                | _ => None
                end
            | None => None
            end
          else None
      | EmptyString => None
      end
  end.

Definition json_reader (s : string) : result pyval :=
  match read_value (2 * String.length s + 2) s with
  | Some (v, rest) =>
      match skip_ws rest with
      | EmptyString => Returns v
      | _ => Raises "Extra data"
      end
  | None => Raises "Expecting value"
  end.

(** [quoted s] is [s] between two double quotes. *)
Definition quoted (s : string) : string :=
  String dquote s ++ String dquote EmptyString.

End JsonReader.

(* ================================================================== *)
(** * Replies used as examples                                         *)
(* ================================================================== *)

Definition scenario_body : string :=
  newline ++ "{" ++ JsonReader.quoted "email" ++ ":"
  ++ JsonReader.quoted "a@b.com" ++ "," ++ JsonReader.quoted "lead_quality"
  ++ ":" ++ JsonReader.quoted "hot" ++ "}" ++ newline.

(** The reply of the scenario: some prose, then one fenced block. *)
Definition scenario_reply : string :=
  "Thanks! " ++ fence_open ++ scenario_body ++ fence_close.

Definition first_block_body : string :=
  " {" ++ JsonReader.quoted "email" ++ ":" ++ JsonReader.quoted "a@b.com"
  ++ "} ".

Definition one_block_reply : string :=
  "Hi " ++ fence_open ++ first_block_body ++ fence_close.

(** What follows the first block: one more backquote on the same line, then
    a second block. *)
Definition later_text : string :=
  "` and ```json {" ++ JsonReader.quoted "email" ++ ":"
  ++ JsonReader.quoted "z@b.com" ++ "} ```".

Definition two_blocks_reply : string :=
  "Hi " ++ fence_open ++ first_block_body ++ fence_close ++ later_text.

(** A registry after three calls: a lead with an email, a lead without,
    then the first lead again with one more field. *)
Definition example_registry : list dict :=
  [ [("email", PStr "a@x.com"); ("lead_quality", PStr "warm");
     ("timestamp", PStr "T3"); ("company", PStr "Acme")];
    [("name", PStr "Bo"); ("timestamp", PStr "T2")] ].


(** A record whose email is the float [NaN], the reply that [json.loads]
    reads it from, and the registry after two such replies. *)
Definition nan_record : dict := [("email", PFloat FNan)].

Definition nan_reply : string :=
  fence_open ++ " {" ++ JsonReader.quoted "email" ++ ": NaN} " ++ fence_close.

Definition nan_registry : list dict :=
  [stamped "T1" nan_record; stamped "T2" nan_record].

(* ================================================================== *)
(** * The rest of the page                                             *)
(* ================================================================== *)

(** Lines 95-97: [sum(1 for lead in leads if lead.get('lead_quality') ==
    quality)]. *)
Definition count_quality (quality : string) (leads : list dict) : nat :=
  list_sum
    (map (fun _ => 1%nat)
       (filter (fun lead => py_eq (get lead "lead_quality") (PStr quality))
          leads)).

(** The session state of lines 13-22. *)
Record session : Type := Session {
  session_key : string;
  session_leads : list dict;
  session_messages : list message
}.

(** Lines 13-22 on a new session; [secret] is
    [st.secrets.get("GROQ_API_KEY", "")]. *)
Definition initial_session (secret : string) : session :=
  Session secret [] [].

Definition greeting : message :=
  Message "assistant" "Hello! How can I assist you today?".

(** Lines 115-116. *)
Definition init_chat (s : session) : session :=
  match session_messages s with
  | [] => Session (session_key s) (session_leads s) [greeting]
  | _ :: _ => s
  end.

(** What a run puts on the page, in the order of the script. *)
Inductive shown : Type :=
| Notice (n : notice)
| Metric (label : string) (value : nat)
| ChatMessage (who text : string).

(** Lines 118-125: the history, one bubble per message. *)
Definition render_history (messages : list message) : list shown :=
  map (fun m => ChatMessage (role m) (history_content m)) messages.

(** The bubbles among what is shown. *)
Definition bubbles (l : list shown) : list shown :=
  filter (fun x => match x with ChatMessage _ _ => true | _ => false end) l.

(** The counters among what is shown. *)
Definition metrics (l : list shown) : list shown :=
  filter (fun x => match x with Metric _ _ => true | _ => false end) l.

(** Line 48. *)
Definition fallback_reply : string :=
  "I'm sorry, I'm having trouble connecting right now. Please try again later.".

(** What the user does before a run: the content of the key field, the
    buttons pressed, the text submitted to the chat (if any), and the time
    read by line 67. *)
Record inputs : Type := Inputs {
  api_key_input : string;
  save_clicked : bool;
  export_clicked : bool;
  chat_input : option string;
  clock : string
}.

Section Page.

(** The Groq library: [groq.Groq(api_key=...)] and
    [client.chat.completions.create(...).choices[0].message.content], each
    with the text of the exception when it raises. *)
Variable client : Type.
Variable new_client : string -> result client.
Variable create_completion : client -> list message -> result string.

Variable json_loads : string -> result pyval.
Variable cell_text : list (option pyval) -> option pyval -> string.
Variable quote_cr : bool.

(** Lines 25-33. *)
Definition initialize_groq_client (key : string)
  : option client * list notice :=
  let api_key := strip key in
  if negb (api_key =? "")%string then
    match new_client api_key with
    | Returns c => (Some c, [])
    | Raises e => (None, [StError ("Error initializing Groq client: " ++ e)])
    end
  else (None, []).

(** Lines 36-48. *)
Definition get_groq_response (c : client) (messages : list message)
  : string * list notice :=
  match create_completion c messages with
  | Returns content => (content, [])
  | Raises e =>
      (fallback_reply,
       [StError ("Error fetching response from Groq: " ++ e)])
  end.

(** Lines 127-142.  The session and what was shown when the run ends, and
    the exception if it ends by one. *)
Definition chat_turn (now : string) (prompt : option string) (s : session)
  : session * list shown * option string :=
  match prompt with
  | None => (s, [], None)
  | Some EmptyString => (s, [], None)
  | Some prompt =>
      let messages1 :=
        (session_messages s ++ [Message "user" prompt])%list in
      let shown1 := [ChatMessage "user" prompt] in
      let '(c, notes1) := initialize_groq_client (session_key s) in
      let shown2 := (shown1 ++ map Notice notes1)%list in
      match c with
      | Some c =>
          let '(response, notes2) := get_groq_response c messages1 in
          let messages2 :=
            (messages1 ++ [Message "assistant" response])%list in
          let '(lead_data, notes3) := extract_lead_data json_loads response in
          let shown3 :=
            (shown2 ++ map Notice notes2 ++ map Notice notes3)%list in
          match update_lead_info now lead_data (session_leads s) with
          | Returns leads' =>
              match display_response response with
              | Returns text =>
                  (Session (session_key s) leads' messages2,
                   (shown3 ++ [ChatMessage "assistant" text])%list, None)
              | Raises e =>
                  (Session (session_key s) leads' messages2, shown3, Some e)
              end
          | Raises e =>
              (Session (session_key s) (session_leads s) messages2, shown3,
               Some e)
          end
      | None =>
          (Session (session_key s) (session_leads s) messages1,
           (shown2
            ++ [Notice
                  (StError
                     "Please enter a valid Groq API key in the sidebar.")])%list,
           None)
      end
  end.

(** Lines 87-112: the sidebar.  The new session, what was shown and the
    content of [leads.csv]. *)
Definition sidebar (i : inputs) (s : session) (file : option string)
  : session * list shown * option string :=
  let '(s1, shown1) :=
    if save_clicked i then
      (Session (api_key_input i) (session_leads s) (session_messages s),
       [Notice (StSuccess "API Key saved!")])
    else (s, []) in
  let metrics :=
    [Metric "Hot Leads" (count_quality "hot" (session_leads s1));
     Metric "Warm Leads" (count_quality "warm" (session_leads s1));
     Metric "Cold Leads" (count_quality "cold" (session_leads s1))] in
  if export_clicked i then
    let '(notes, file') :=
      export_leads cell_text quote_cr (session_leads s1) file in
    (s1, (shown1 ++ metrics ++ map Notice notes)%list, file')
  else (s1, (shown1 ++ metrics)%list, file).

(** One run of the script, lines 84-142. *)
Definition page_run (i : inputs) (s : session) (file : option string)
  : session * list shown * option string * option string :=
  let '(s1, shown1, file1) := sidebar i s file in
  let s2 := init_chat s1 in
  let shown2 := render_history (session_messages s2) in
  let '(s3, shown3, raised) := chat_turn (clock i) (chat_input i) s2 in
  (s3, (shown1 ++ shown2 ++ shown3)%list, file1, raised).

(** The sessions that runs of the script lead to. *)
Inductive session_reachable : session -> Prop :=
| session_start secret : session_reachable (initial_session secret)
| session_run i s file s' shown' file' raised :
    session_reachable s ->
    page_run i s file = (s', shown', file', raised) ->
    session_reachable s'.

End Page.

(** The roles that the program writes. *)
Definition known_role (m : message) : Prop :=
  role m = "user" \/ role m = "assistant".

(** Line 142. *)
Definition key_error : shown :=
  Notice (StError "Please enter a valid Groq API key in the sidebar.").

(** A stand-in for the Groq library, to run the page: any key gives a
    client, and the completion call answers [reply]. *)
Definition demo_client (key : string) : result unit := Returns tt.

Definition demo_completion (reply : result string) (c : unit)
    (messages : list message) : result string := reply.

(** A stand-in for the text of a cell: a string is written as it is. *)
Definition demo_text (column : list (option pyval)) (cell : option pyval)
  : string :=
  match cell with
  | Some (PStr s) => s
  | _ => ""
  end.

(** A first run: the user types "hi" and the model answers with the reply
    of the scenario. *)
Definition demo_inputs : inputs := Inputs "" false false (Some "hi") "T1".

Definition demo_turn : session * list shown * option string :=
  chat_turn unit demo_client (demo_completion (Returns scenario_reply))
    JsonReader.json_reader "T1" (Some "hi") (initial_session "gsk").

Definition demo_run
  : session * list shown * option string * option string :=
  page_run unit demo_client (demo_completion (Returns scenario_reply))
    JsonReader.json_reader demo_text false demo_inputs
    (initial_session "gsk") None.

(** What one lead adds to the counter of [quality]. *)
Definition counts_as (quality : string) (lead : dict) : nat :=
  if py_eq (get lead "lead_quality") (PStr quality) then 1%nat else 0%nat.

(** A record with a time stamp. *)
Definition has_timestamp (lead : dict) : Prop :=
  exists t, lookup "timestamp" lead = Some (PStr t).

(** A [json.loads] that builds Python values only: no dict with a key
    twice. *)
Definition builds_dicts (json_loads : string -> result pyval) : Prop :=
  forall text v, json_loads text = Returns v -> well_formed v = true.

(* ================================================================== *)
(** * Facts on the string primitives                                   *)
(* ================================================================== *)

Lemma length_append (a b : string) :
  String.length (a ++ b) = (String.length a + String.length b)%nat.
Proof. induction a as [|c a IH]; simpl; [reflexivity | now rewrite IH]. Qed.

Lemma append_assoc (a b c : string) : (a ++ b) ++ c = a ++ b ++ c.
Proof. induction a as [|x a IH]; simpl; [reflexivity | now rewrite IH]. Qed.

Lemma append_empty_r (a : string) : a ++ "" = a.
Proof. induction a as [|x a IH]; simpl; [reflexivity | now rewrite IH]. Qed.

Lemma drop_append (a b : string) : drop (String.length a) (a ++ b) = b.
Proof. induction a as [|c a IH]; simpl; [reflexivity | exact IH]. Qed.

Lemma drop_append_plus (a b : string) (k : nat) :
  drop (String.length a + k) (a ++ b) = drop k b.
Proof. induction a as [|c a IH]; simpl; [reflexivity | exact IH]. Qed.

Lemma take_append (a b : string) : take (String.length a) (a ++ b) = a.
Proof. induction a as [|c a IH]; simpl; [reflexivity | now rewrite IH]. Qed.

Lemma take_all (s : string) (n : nat) :
  (String.length s <= n)%nat -> take n s = s.
Proof.
  revert n; induction s as [|c s IH]; intros [|n] H; simpl in *;
    try reflexivity; try lia.
  rewrite IH by lia. reflexivity.
Qed.

Lemma take_drop (s : string) (n : nat) : take n s ++ drop n s = s.
Proof.
  revert s; induction n as [|n IH]; intros [|c s]; simpl; try reflexivity.
  now rewrite IH.
Qed.

Lemma length_take (s : string) (n : nat) :
  (n <= String.length s)%nat -> String.length (take n s) = n.
Proof.
  revert s; induction n as [|n IH]; intros [|c s] H; simpl in *;
    try reflexivity; try lia.
  rewrite IH by lia. reflexivity.
Qed.

Lemma drop_drop (s : string) (n m : nat) : drop n (drop m s) = drop (m + n) s.
Proof.
  revert s; induction m as [|m IH]; intros s; simpl; [reflexivity|].
  destruct s as [|c s]; [now destruct n | apply IH].
Qed.

Lemma prefix_iff (sub s : string) :
  prefix sub s = true <-> exists post, s = sub ++ post.
Proof.
  revert s; induction sub as [|a sub IH]; intros s; simpl.
  - split; [intros _; now exists s | intros _; now destruct s].
  - destruct s as [|b s]; simpl.
    + split; [discriminate | intros [post H]; discriminate].
    + destruct (ascii_dec a b) as [->|Hab].
      * rewrite IH. split; intros [post H]; exists post.
        -- now rewrite H.
        -- now injection H.
      * split; [discriminate | intros [post H]; injection H; congruence].
Qed.

Lemma prefix_length (sub s : string) :
  prefix sub s = true -> (String.length sub <= String.length s)%nat.
Proof.
  rewrite prefix_iff. intros [post ->]. rewrite length_append. lia.
Qed.

(** An occurrence at an offset is a prefix of what is left there. *)
Lemma occurs_at_prefix (sub s : string) (i : nat) :
  occurs_at sub s i <->
  (i <= String.length s)%nat /\ prefix sub (drop i s) = true.
Proof.
  split.
  - intros (pre & post & -> & <-). split.
    + rewrite length_append. lia.
    + rewrite drop_append. apply prefix_iff. now exists post.
  - intros [Hi H]. apply prefix_iff in H as [post H].
    exists (take i s), post. split.
    + rewrite <- H. symmetry. apply take_drop.
    + now apply length_take.
Qed.

Lemma index_of_some (sub s : string) (i : nat) :
  index_of sub s = Some i <->
  (i <= String.length s)%nat /\ prefix sub (drop i s) = true /\
  forall j, (j < i)%nat -> prefix sub (drop j s) = false.
Proof.
  revert i; induction s as [|c s IH]; intros i.
  - cbn [index_of]. destruct (prefix sub "") eqn:E.
    + split.
      * intros [= <-]. cbn [drop String.length]. repeat split; [lia | exact E | lia].
      * intros (Hi & _ & _). simpl in Hi. f_equal. lia.
    + split; [discriminate|]. intros (Hi & H & _). simpl in Hi.
      assert (i = O) by lia. subst. cbn [drop] in H. congruence.
  - cbn [index_of]. destruct (prefix sub (String c s)) eqn:E.
    + split.
      * intros [= <-]. cbn [drop String.length]. repeat split; [lia | exact E | lia].
      * intros (_ & _ & Hlt). destruct i as [|i]; [reflexivity|].
        specialize (Hlt O ltac:(lia)). cbn [drop] in Hlt. congruence.
    + destruct i as [|i].
      * split.
        -- destruct (index_of sub s); discriminate.
        -- intros (_ & H & _). cbn [drop] in H. congruence.
      * destruct (index_of sub s) as [k|] eqn:Ek; simpl.
        -- split.
           ++ intros [= <-]. destruct (proj1 (IH k) eq_refl) as (A & B & C).
              repeat split; [lia | exact B |].
              intros [|j] Hj; [exact E | apply C; lia].
           ++ intros (A & B & C). f_equal. f_equal.
              assert (Some k = Some i) as [= ->]; [|reflexivity].
              apply IH. repeat split; [lia | exact B |].
              intros j Hj. apply (C (S j)). lia.
        -- split; [discriminate|]. intros (A & B & C).
           assert (None = Some i); [|discriminate].
           apply IH. repeat split; [lia | exact B |].
           intros j Hj. apply (C (S j)). lia.
Qed.

Lemma index_of_none (sub s : string) :
  index_of sub s = None <->
  forall j, (j <= String.length s)%nat -> prefix sub (drop j s) = false.
Proof.
  induction s as [|c s IH]; cbn [index_of].
  - destruct (prefix sub "") eqn:E.
    + split; [discriminate|]. intros H. specialize (H O ltac:(simpl; lia)).
      cbn [drop] in H. congruence.
    + split; [|reflexivity]. intros _ j Hj. simpl in Hj.
      assert (j = O) by lia. now subst.
  - destruct (prefix sub (String c s)) eqn:E.
    + split; [discriminate|]. intros H. specialize (H O ltac:(simpl; lia)).
      cbn [drop] in H. congruence.
    + destruct (index_of sub s) as [k|] eqn:Ek; simpl.
      * split; [discriminate|]. intros H.
        assert (Some k = None); [|discriminate].
        apply IH. intros j Hj. apply (H (S j)). simpl. lia.
      * split; [|reflexivity]. intros _ [|j] Hj; [exact E|].
        cbn [drop]. apply (proj1 IH eq_refl). simpl in Hj. lia.
Qed.

Lemma index_of_bound (sub s : string) (i : nat) :
  index_of sub s = Some i ->
  (i + String.length sub <= String.length s)%nat.
Proof.
  intros H. apply index_of_some in H as (Hi & H & _).
  apply prefix_length in H.
  assert (String.length s = (i + String.length (drop i s))%nat); [|lia].
  rewrite <- (take_drop s i) at 1. rewrite length_append, length_take; lia.
Qed.

(** The leftmost occurrence, in terms of [occurs_at]. *)
Lemma index_of_first (sub s : string) (i : nat) :
  occurs_at sub s i ->
  (forall j, (j < i)%nat -> ~ occurs_at sub s j) ->
  index_of sub s = Some i.
Proof.
  intros H Hfirst. apply occurs_at_prefix in H as [Hi H].
  apply index_of_some. repeat split; [exact Hi | exact H |].
  intros j Hj. destruct (prefix sub (drop j s)) eqn:E; [|reflexivity].
  exfalso. apply (Hfirst j Hj). apply occurs_at_prefix. split; [lia | exact E].
Qed.

Lemma index_of_absent (sub s : string) :
  ~ occurs sub s -> index_of sub s = None.
Proof.
  intros H. apply index_of_none. intros j Hj.
  destruct (prefix sub (drop j s)) eqn:E; [|reflexivity].
  exfalso. apply H. exists j. apply occurs_at_prefix. now split.
Qed.

Lemma index_of_occurs (sub s : string) (i : nat) :
  index_of sub s = Some i ->
  occurs_at sub s i /\ forall j, (j < i)%nat -> ~ occurs_at sub s j.
Proof.
  intros H. apply index_of_some in H as (Hi & H & Hlt). split.
  - apply occurs_at_prefix. now split.
  - intros j Hj Hocc. apply occurs_at_prefix in Hocc as [_ Hocc].
    rewrite (Hlt j Hj) in Hocc. discriminate.
Qed.

Lemma index_of_not_occurs (sub s : string) :
  index_of sub s = None -> ~ occurs sub s.
Proof.
  intros H [j Hocc]. apply occurs_at_prefix in Hocc as [Hj Hocc].
  rewrite (proj1 (index_of_none sub s) H j Hj) in Hocc. discriminate.
Qed.

Lemma length_drop (s : string) (n : nat) :
  String.length (drop n s) = (String.length s - n)%nat.
Proof.
  revert s; induction n as [|n IH]; intros [|c s]; simpl; try reflexivity.
  apply IH.
Qed.

Lemma occurs_at_tail (sub : string) (c : ascii) (t : string) (j : nat) :
  occurs_at sub (String c t) (S j) <-> occurs_at sub t j.
Proof.
  rewrite !occurs_at_prefix. cbn [String.length drop].
  split; intros [A B]; (split; [lia | exact B]).
Qed.

Lemma occurs_at_shift (sub a b : string) (j : nat) :
  occurs_at sub b j -> occurs_at sub (a ++ b) (String.length a + j).
Proof.
  intros (pre & post & -> & <-). exists (a ++ pre), post.
  rewrite append_assoc, length_append. auto.
Qed.

(** [s.find(sub)] and [s.find(sub, k)] through [index_of]. *)
Lemma find_from (s sub : string) (k : nat) :
  (k <= String.length s)%nat ->
  find s sub (Z.of_nat k) =
  match index_of sub (drop k s) with
  | Some i => Z.of_nat (k + i)
  | None => -1
  end.
Proof.
  intros Hk. unfold find, len.
  destruct (Z.ltb_spec (Z.of_nat k) 0) as [Hneg|_]; [lia|].
  rewrite Nat2Z.id.
  destruct (Z.ltb_spec (Z.of_nat (String.length s) - Z.of_nat k)
              (Z.of_nat (String.length sub))) as [Hshort|_].
  - destruct (index_of sub (drop k s)) as [i|] eqn:E; [|reflexivity].
    apply index_of_bound in E. rewrite length_drop in E. lia.
  - destruct (index_of sub (drop k s)); [|reflexivity]. lia.
Qed.

Lemma find_from_start (s sub : string) :
  find s sub 0 =
  match index_of sub s with
  | Some i => Z.of_nat i
  | None => -1
  end.
Proof. apply (find_from s sub O). lia. Qed.

Lemma clamp_inside (n i : Z) : 0 <= i <= n -> clamp n i = i.
Proof.
  intros H. unfold clamp. destruct (Z.ltb_spec i 0); lia.
Qed.

(** [(a ++ b ++ c)[len a : len a + len b]] is [b]. *)
Lemma slice_middle (a b c : string) :
  slice (a ++ b ++ c) (len a) (len a + len b) = b.
Proof.
  unfold slice, len. rewrite !length_append.
  rewrite !clamp_inside by lia.
  replace (Z.to_nat (Z.of_nat (String.length a) + Z.of_nat (String.length b)
                     - Z.of_nat (String.length a)))
    with (String.length b) by lia.
  rewrite Nat2Z.id, drop_append. apply take_append.
Qed.

(** [s[:len a]] of [a ++ b] is [a]. *)
Lemma slice_to_prefix (a b : string) : slice_to (a ++ b) (len a) = a.
Proof.
  unfold slice_to, slice, len. rewrite length_append.
  rewrite !clamp_inside by lia.
  replace (Z.to_nat (Z.of_nat (String.length a) - 0))
    with (String.length a) by lia.
  apply take_append.
Qed.

(* ================================================================== *)
(** * The extractor on a reply with a fenced block                     *)
(* ================================================================== *)

Lemma first_at_index_of (sub s : string) (i : nat) :
  first_at sub s i <-> index_of sub s = Some i.
Proof.
  split.
  - intros [H Hfirst]. now apply index_of_first.
  - apply index_of_occurs.
Qed.

Section ExtractorFacts.

Variable json_loads : string -> result pyval.

(** Where the two searches of lines 54-55 land. *)
Lemma find_open (pre tail : string) :
  first_at fence_open (pre ++ fence_open ++ tail) (String.length pre) ->
  find (pre ++ fence_open ++ tail) fence_open 0 = len pre.
Proof.
  intros H. rewrite find_from_start.
  apply first_at_index_of in H. now rewrite H.
Qed.

Lemma drop_into_open (pre tail : string) :
  drop (String.length pre + 6) (pre ++ fence_open ++ tail)
  = String "n" tail.
Proof. rewrite drop_append_plus. reflexivity. Qed.

Lemma find_close (pre body rest : string) :
  first_at fence_close (body ++ fence_close ++ rest) (String.length body) ->
  find (pre ++ fence_open ++ body ++ fence_close ++ rest) fence_close
       (len pre + 6)
  = len pre + 7 + len body.
Proof.
  intros [_ Hfirst]. unfold len.
  replace (Z.of_nat (String.length pre) + 6)
    with (Z.of_nat (String.length pre + 6)) by lia.
  rewrite find_from, drop_into_open
    by (rewrite !length_append; simpl; lia).
  assert (index_of fence_close (String "n" (body ++ fence_close ++ rest))
          = Some (S (String.length body))) as ->.
  { apply index_of_first.
    - apply occurs_at_tail. now exists body, rest.
    - intros [|j] Hj.
      + intros H. apply occurs_at_prefix in H as [_ H]. discriminate.
      + rewrite occurs_at_tail. apply Hfirst. lia. }
  lia.
Qed.

Lemma find_close_absent (pre tail : string) :
  ~ occurs fence_close tail ->
  find (pre ++ fence_open ++ tail) fence_close (len pre + 6) = -1.
Proof.
  intros Habsent. unfold len.
  replace (Z.of_nat (String.length pre) + 6)
    with (Z.of_nat (String.length pre + 6)) by lia.
  rewrite find_from, drop_into_open
    by (rewrite !length_append; simpl; lia).
  assert (index_of fence_close (String "n" tail) = None) as ->;
    [|reflexivity].
  apply index_of_absent. intros [[|j] H].
  - apply occurs_at_prefix in H as [_ H]. discriminate.
  - apply Habsent. exists j. now apply occurs_at_tail in H.
Qed.

Lemma extract_first_block (pre body rest : string) :
  first_at fence_open (pre ++ fence_open ++ body ++ fence_close ++ rest)
           (String.length pre) ->
  first_at fence_close (body ++ fence_close ++ rest) (String.length body) ->
  extract_lead_data json_loads
    (pre ++ fence_open ++ body ++ fence_close ++ rest)
  = block_outcome json_loads body.
Proof.
  intros Hopen Hclose. unfold extract_lead_data, block_outcome.
  rewrite (find_open pre _ Hopen), (find_close pre body rest Hclose).
  assert (negb (len pre =? -1) && negb (len pre + 7 + len body =? -1)
          = true) as ->.
  { unfold len. apply andb_true_iff; split; apply negb_true_iff;
      apply Z.eqb_neq; lia. }
  cbv zeta.
  replace (pre ++ fence_open ++ body ++ fence_close ++ rest)
    with ((pre ++ fence_open) ++ body ++ fence_close ++ rest)
    by apply append_assoc.
  replace (len pre + 7) with (len (pre ++ fence_open))
    by (unfold len; rewrite length_append; simpl; lia).
  rewrite slice_middle. reflexivity.
Qed.

Lemma extract_no_open (response : string) :
  ~ occurs fence_open response ->
  extract_lead_data json_loads response = (PDict [], []).
Proof.
  intros H. unfold extract_lead_data.
  rewrite find_from_start, (index_of_absent _ _ H). reflexivity.
Qed.

Lemma extract_no_close (pre tail : string) :
  first_at fence_open (pre ++ fence_open ++ tail) (String.length pre) ->
  ~ occurs fence_close tail ->
  extract_lead_data json_loads (pre ++ fence_open ++ tail) = (PDict [], []).
Proof.
  intros Hopen Hclose. unfold extract_lead_data.
  rewrite (find_open pre _ Hopen), (find_close_absent pre tail Hclose).
  cbn. now rewrite andb_false_r.
Qed.

End ExtractorFacts.

(** ** The first block does not depend on what follows it *)

Lemma drop_append_le (a x : string) (j : nat) :
  (j <= String.length a)%nat -> drop j (a ++ x) = drop j a ++ x.
Proof.
  revert j; induction a as [|c a IH]; intros [|j] H; simpl in *;
    try reflexivity; try lia.
  apply IH. lia.
Qed.

Lemma prefix_append_long (sub u x : string) :
  (String.length sub <= String.length u)%nat ->
  prefix sub (u ++ x) = prefix sub u.
Proof.
  revert u; induction sub as [|a sub IH]; intros [|b u] H; simpl in *;
    try reflexivity; try lia.
  - now destruct x.
  - destruct (ascii_dec a b); [apply IH; lia | reflexivity].
Qed.

Lemma occurs_at_common_prefix (sub a x y : string) (j : nat) :
  (j + String.length sub <= String.length a)%nat ->
  occurs_at sub (a ++ x) j -> occurs_at sub (a ++ y) j.
Proof.
  intros Hj. rewrite !occurs_at_prefix, !length_append.
  rewrite !drop_append_le by lia.
  rewrite !prefix_append_long by (rewrite length_drop; lia).
  intros [_ H]. split; [lia | exact H].
Qed.

Lemma first_at_any_rest (sub a x y : string) :
  first_at sub (a ++ sub ++ x) (String.length a) ->
  first_at sub (a ++ sub ++ y) (String.length a).
Proof.
  intros [_ Hfirst]. split.
  - now exists a, y.
  - intros j Hj H. apply (Hfirst j Hj).
    rewrite <- append_assoc in *.
    apply occurs_at_common_prefix with (y := x) in H; [exact H|].
    rewrite length_append. lia.
Qed.

(* ================================================================== *)
(** * Facts on Python equality                                         *)
(* ================================================================== *)

(** Induction on a value, with the hypothesis on every item it holds. *)
Lemma pyval_nested_ind (P : pyval -> Prop) :
  P PNone ->
  (forall b, P (PBool b)) ->
  (forall z, P (PInt z)) ->
  (forall f, P (PFloat f)) ->
  (forall s, P (PStr s)) ->
  (forall l, Forall P l -> P (PList l)) ->
  (forall d, Forall (fun kv => P (snd kv)) d -> P (PDict d)) ->
  forall v, P v.
Proof.
  intros HNone HBool HInt HFloat HStr HList HDict.
  fix IH 1. intros [ | b | z | f | s | l | d ];
    [ exact HNone | apply HBool | apply HInt | apply HFloat | apply HStr | | ].
  - apply HList. induction l as [|x l IHl]; constructor; [apply IH | exact IHl].
  - apply HDict. induction d as [|[k x] d IHd]; constructor;
      [apply IH | exact IHd].
Qed.

Lemma py_eq_list (l m : list pyval) :
  py_eq (PList l) (PList m) = all2 item_eq l m.
Proof. reflexivity. Qed.

Lemma py_eq_dict (d e : dict) :
  py_eq (PDict d) (PDict e) =
  (List.length d =? List.length e)%nat &&
  forallb (fun kx => match lookup (fst kx) e with
                     | Some y => item_eq (snd kx) y
                     | None => false
                     end) d.
Proof. reflexivity. Qed.

Lemma py_eq_number (a b : pyval) (x : pyfloat) :
  as_number a = Some x ->
  py_eq a b = match as_number b with
              | Some y => float_eq x y
              | None => false
              end.
Proof.
  destruct a; try discriminate; intros [= <-]; destruct b; reflexivity.
Qed.

Lemma py_eq_true_number (a b : pyval) (x : pyfloat) :
  as_number a = Some x -> py_eq a b = true ->
  exists y, as_number b = Some y /\ float_eq x y = true.
Proof.
  intros Ha H. rewrite (py_eq_number a b x Ha) in H.
  destruct (as_number b) as [y|]; [now exists y | discriminate].
Qed.

Lemma float_eq_trans (x y z : pyfloat) :
  float_eq x y = true -> float_eq y z = true -> float_eq x z = true.
Proof.
  destruct x as [|a|p], y as [|b|q], z as [|c|r]; simpl; try discriminate.
  - intros H1 H2. apply eqb_prop in H1, H2. subst. apply eqb_reflx.
  - rewrite !Qeq_bool_iff. intros H1 H2. now rewrite H1.
Qed.

Lemma float_eq_nan_r (x : pyfloat) : float_eq x FNan = false.
Proof. now destruct x. Qed.

Lemma is_nan_true (v : pyval) : is_nan v = true -> v = PFloat FNan.
Proof. destruct v as [ | | |[| |]| | | ]; simpl; congruence. Qed.

Lemma py_eq_nan_l (b : pyval) : py_eq (PFloat FNan) b = false.
Proof. now destruct b. Qed.

Lemma py_eq_nan_r (a : pyval) : py_eq a (PFloat FNan) = false.
Proof.
  destruct a as [ | b | z | f | | | ]; try reflexivity.
  simpl. apply float_eq_nan_r.
Qed.

Lemma py_eq_not_nan (a b : pyval) : py_eq a b = true -> is_nan b = false.
Proof.
  intros H. destruct (is_nan b) eqn:E; [|reflexivity].
  apply is_nan_true in E. subst. now rewrite py_eq_nan_r in H.
Qed.

Lemma item_eq_cases (x y : pyval) :
  item_eq x y = true ->
  (x = PFloat FNan /\ y = PFloat FNan) \/ py_eq x y = true.
Proof.
  unfold item_eq. intros H. apply orb_true_iff in H as [H|H]; [left|now right].
  apply andb_true_iff in H as [Hx Hy]. split; now apply is_nan_true.
Qed.

Lemma item_eq_trans (x y z : pyval) :
  (forall b c, py_eq x b = true -> py_eq b c = true -> py_eq x c = true) ->
  item_eq x y = true -> item_eq y z = true -> item_eq x z = true.
Proof.
  intros IH Hxy Hyz.
  apply item_eq_cases in Hxy as [[-> ->]|Hxy];
    apply item_eq_cases in Hyz as [[Hy ->]|Hyz].
  - reflexivity.
  - now rewrite py_eq_nan_l in Hyz.
  - subst. now rewrite py_eq_nan_r in Hxy.
  - unfold item_eq. rewrite (IH y z Hxy Hyz). apply orb_true_r.
Qed.

Lemma lookup_In (k : string) (v : pyval) (d : dict) :
  lookup k d = Some v -> In (k, v) d.
Proof.
  induction d as [|[k' v'] d IH]; simpl; [discriminate|].
  destruct (String.eqb_spec k' k) as [->|_].
  - intros [= ->]. now left.
  - intros H. right. now apply IH.
Qed.

Ltac number_trans a b c Hab Hbc :=
  let y := fresh "y" in let z := fresh "z" in
  let Hy := fresh "Hy" in let Hz := fresh "Hz" in
  let Hxy := fresh "Hxy" in let Hyz := fresh "Hyz" in
  destruct (py_eq_true_number a b _ eq_refl Hab) as (y & Hy & Hxy);
  destruct (py_eq_true_number b c _ Hy Hbc) as (z & Hz & Hyz);
  rewrite (py_eq_number a c _ eq_refl), Hz;
  exact (float_eq_trans _ _ _ Hxy Hyz).

(** [==] is transitive. *)
Lemma py_eq_trans (a : pyval) :
  forall b c, py_eq a b = true -> py_eq b c = true -> py_eq a c = true.
Proof.
  induction a as [ | ba | za | fa | sa | l IH | d IH ] using pyval_nested_ind;
    intros b c Hab Hbc.
  - destruct b; try discriminate. exact Hbc.
  - number_trans (PBool ba) b c Hab Hbc.
  - number_trans (PInt za) b c Hab Hbc.
  - number_trans (PFloat fa) b c Hab Hbc.
  - destruct b; try discriminate. destruct c; try discriminate.
    simpl in *. apply String.eqb_eq in Hab, Hbc. subst. apply String.eqb_refl.
  - destruct b as [ | | | | | m | ]; try discriminate.
    destruct c as [ | | | | | n | ]; try discriminate.
    rewrite py_eq_list in *. revert m n Hab Hbc.
    induction IH as [|x l Hx _ IHl]; intros [|y m] [|z n]; simpl;
      try discriminate; auto.
    rewrite !andb_true_iff. intros [Hxy Hlm] [Hyz Hmn]. split.
    + eapply item_eq_trans; eauto.
    + eapply IHl; eauto.
  - destruct b as [ | | | | | | e ]; try discriminate.
    destruct c as [ | | | | | | g ]; try discriminate.
    rewrite py_eq_dict in *.
    apply andb_true_iff in Hab as [Lde Hde], Hbc as [Leg Heg].
    apply andb_true_iff. split.
    + apply Nat.eqb_eq in Lde, Leg. apply Nat.eqb_eq. congruence.
    + rewrite forallb_forall in *. rewrite Forall_forall in IH.
      intros [k x] Hin. specialize (Hde _ Hin). cbn [fst snd] in *.
      destruct (lookup k e) as [y|] eqn:Ey; [|discriminate].
      specialize (Heg _ (lookup_In _ _ _ Ey)). cbn [fst snd] in Heg.
      destruct (lookup k g) as [z|]; [|discriminate].
      eapply item_eq_trans; eauto. apply (IH _ Hin).
Qed.

Lemma lookup_distinct (k : string) (v : pyval) (d : dict) :
  distinct (map fst d) = true -> In (k, v) d -> lookup k d = Some v.
Proof.
  induction d as [|[k' v'] d IH]; simpl; [contradiction|].
  intros Hd [[= -> ->]|Hin].
  - now rewrite String.eqb_refl.
  - apply andb_true_iff in Hd as [Hfresh Hd].
    destruct (String.eqb_spec k' k) as [->|_]; [|now apply IH].
    exfalso. apply negb_true_iff in Hfresh.
    assert (existsb (String.eqb k) (map fst d) = true); [|congruence].
    apply existsb_exists. exists k. split; [|apply String.eqb_refl].
    apply in_map_iff. now exists (k, v).
Qed.

Lemma float_eq_refl (f : pyfloat) : f <> FNan -> float_eq f f = true.
Proof.
  destruct f as [|b|q]; simpl; intros H.
  - congruence.
  - apply eqb_reflx.
  - apply Qeq_bool_iff. reflexivity.
Qed.

(** A value other than [NaN] equals itself. *)
Lemma py_eq_refl (v : pyval) :
  well_formed v = true -> is_nan v = false -> py_eq v v = true.
Proof.
  induction v as [ | b | z | f | s | l IH | d IH ] using pyval_nested_ind;
    intros Hwf Hnan.
  - reflexivity.
  - simpl. apply Qeq_bool_iff. reflexivity.
  - simpl. apply Qeq_bool_iff. reflexivity.
  - simpl. apply float_eq_refl. intros ->. discriminate.
  - simpl. apply String.eqb_refl.
  - rewrite py_eq_list. clear Hnan. simpl in Hwf.
    induction IH as [|x l Hx _ IHl]; [reflexivity|].
    simpl in *. apply andb_true_iff in Hwf as [Hwx Hwl].
    rewrite (IHl Hwl), andb_true_r. unfold item_eq.
    destruct (is_nan x) eqn:E; [reflexivity | now apply Hx].
  - rewrite py_eq_dict, Nat.eqb_refl. cbn [andb]. clear Hnan. simpl in Hwf.
    apply andb_true_iff in Hwf as [Hkeys Hvals].
    rewrite forallb_forall in *. rewrite Forall_forall in IH.
    intros [k x] Hin. cbn [fst snd].
    rewrite (lookup_distinct k x d Hkeys Hin). unfold item_eq.
    destruct (is_nan x) eqn:E; [reflexivity|].
    apply (IH _ Hin); [exact (Hvals _ Hin) | exact E].
Qed.

Lemma py_eq_str (s t : string) : py_eq (PStr s) (PStr t) = (s =? t)%string.
Proof. reflexivity. Qed.

(** ** Equal values are both true or both false *)

Lemma Qeq_bool_inject_Z (z : Z) : Qeq_bool (inject_Z z) 0 = (z =? 0).
Proof.
  unfold Qeq_bool, inject_Z. simpl. rewrite Z.mul_1_r.
  destruct z; reflexivity.
Qed.

Lemma truthy_number (v : pyval) (x : pyfloat) :
  as_number v = Some x -> truthy v = float_truthy x.
Proof.
  destruct v as [ | b | z | f | | | ]; try discriminate; intros [= <-]; simpl.
  - now destruct b.
  - now rewrite Qeq_bool_inject_Z.
  - reflexivity.
Qed.

Lemma float_eq_truthy (x y : pyfloat) :
  float_eq x y = true -> float_truthy x = float_truthy y.
Proof.
  destruct x as [|a|p], y as [|b|q]; simpl; try discriminate; auto.
  intros H. apply Qeq_bool_iff in H. f_equal.
  destruct (Qeq_bool p 0) eqn:Ep, (Qeq_bool q 0) eqn:Eq; try reflexivity.
  - apply Qeq_bool_iff in Ep. rewrite H in Ep. apply Qeq_bool_iff in Ep.
    congruence.
  - apply Qeq_bool_iff in Eq. rewrite <- H in Eq. apply Qeq_bool_iff in Eq.
    congruence.
Qed.

Lemma py_eq_truthy (a b : pyval) :
  py_eq a b = true -> truthy a = truthy b.
Proof.
  intros H.
  destruct (as_number a) as [x|] eqn:Ea.
  - destruct (py_eq_true_number a b x Ea H) as (y & Eb & Hxy).
    rewrite (truthy_number a x Ea), (truthy_number b y Eb).
    now apply float_eq_truthy.
  - destruct a as [ | | | | s | l | d ]; try discriminate;
      destruct b as [ | | | | t | m | e ]; try discriminate.
    + reflexivity.
    + simpl in H. apply String.eqb_eq in H. now subst.
    + rewrite py_eq_list in H. destruct l, m; simpl in *; congruence.
    + rewrite py_eq_dict in H. apply andb_true_iff in H as [H _].
      destruct d, e; simpl in *; congruence.
Qed.

(** ** Symmetry, on values whose dicts repeat no key *)

Lemma distinct_NoDup (l : list string) : distinct l = true <-> NoDup l.
Proof.
  induction l as [|k l IH]; simpl.
  - split; [constructor | reflexivity].
  - rewrite andb_true_iff, negb_true_iff, IH. split.
    + intros [Hk Hl]. constructor; [|exact Hl]. intros Hin.
      assert (existsb (String.eqb k) l = true); [|congruence].
      apply existsb_exists. exists k. split; [exact Hin | apply String.eqb_refl].
    + intros H. inversion H as [|? ? Hk Hl]; subst. split; [|exact Hl].
      destruct (existsb (String.eqb k) l) eqn:E; [|reflexivity].
      apply existsb_exists in E as (x & Hx & E). apply String.eqb_eq in E.
      now subst.
Qed.

Lemma float_eq_sym (x y : pyfloat) : float_eq x y = float_eq y x.
Proof.
  destruct x as [|a|p], y as [|b|q]; simpl; try reflexivity.
  - now destruct a, b.
  - destruct (Qeq_bool p q) eqn:E1, (Qeq_bool q p) eqn:E2; try reflexivity.
    + apply Qeq_bool_iff in E1. symmetry in E1. apply Qeq_bool_iff in E1.
      congruence.
    + apply Qeq_bool_iff in E2. symmetry in E2. apply Qeq_bool_iff in E2.
      congruence.
Qed.

Lemma item_eq_sym (x y : pyval) :
  (py_eq x y = true -> py_eq y x = true) ->
  item_eq x y = true -> item_eq y x = true.
Proof.
  intros IH H. apply item_eq_cases in H as [[-> ->]|H]; [reflexivity|].
  unfold item_eq. rewrite (IH H). apply orb_true_r.
Qed.

Lemma lookup_Some_In_keys (k : string) (v : pyval) (d : dict) :
  lookup k d = Some v -> In k (keys d).
Proof. intros H. apply (in_map fst _ (k, v)), lookup_In, H. Qed.

Lemma py_eq_sym (a : pyval) :
  forall b, well_formed a = true -> well_formed b = true ->
            py_eq a b = true -> py_eq b a = true.
Proof.
  induction a as [ | ba | za | fa | sa | l IH | d IH ] using pyval_nested_ind;
    intros b Ha Hb H.
  - now destruct b.
  - destruct (py_eq_true_number (PBool ba) b _ eq_refl H) as (y & Ey & Hy).
    rewrite (py_eq_number b _ y Ey). cbn [as_number].
    now rewrite float_eq_sym.
  - destruct (py_eq_true_number (PInt za) b _ eq_refl H) as (y & Ey & Hy).
    rewrite (py_eq_number b _ y Ey). cbn [as_number].
    now rewrite float_eq_sym.
  - destruct (py_eq_true_number (PFloat fa) b _ eq_refl H) as (y & Ey & Hy).
    rewrite (py_eq_number b _ y Ey). cbn [as_number].
    now rewrite float_eq_sym.
  - destruct b; try discriminate. simpl in *. now rewrite String.eqb_sym.
  - destruct b as [ | | | | | m | ]; try discriminate.
    rewrite py_eq_list in *. simpl in Ha, Hb. revert m Hb H.
    induction IH as [|x l Hx _ IHl]; intros [|y m] Hb H;
      try discriminate; [reflexivity|].
    simpl in *. apply andb_true_iff in Ha as [Hax Hal], Hb as [Hby Hbm].
    apply andb_true_iff in H as [Hxy Hlm]. apply andb_true_iff. split.
    + apply item_eq_sym; [|exact Hxy]. now apply Hx.
    + now apply IHl.
  - destruct b as [ | | | | | | e ]; try discriminate.
    rewrite py_eq_dict in *. apply andb_true_iff in H as [Hlen Hde].
    simpl in Ha, Hb.
    apply andb_true_iff in Ha as [Hkd Hvd], Hb as [Hke Hve].
    apply Nat.eqb_eq in Hlen.
    rewrite forallb_forall in Hde, Hvd, Hve. rewrite Forall_forall in IH.
    apply andb_true_iff. split; [apply Nat.eqb_eq; congruence|].
    apply forallb_forall. intros [k y] Hin. cbn [fst snd].
    assert (incl (keys e) (keys d)) as Hincl.
    { apply NoDup_length_incl.
      - now apply distinct_NoDup.
      - unfold keys. rewrite !length_map. lia.
      - intros k' Hk'. apply in_map_iff in Hk' as ([k'' x] & <- & Hx).
        specialize (Hde _ Hx). cbn [fst snd] in Hde.
        destruct (lookup k'' e) as [y'|] eqn:E; [|discriminate].
        exact (lookup_Some_In_keys _ _ _ E). }
    assert (In k (keys d)) as Hk
        by (apply Hincl, (in_map fst _ (k, y)), Hin).
    apply in_map_iff in Hk as ([k' x] & Hkk & Hx). cbn [fst] in Hkk. subst k'.
    rewrite (lookup_distinct k x d Hkd Hx).
    pose proof (Hde _ Hx) as Hxy. cbn [fst snd] in Hxy.
    rewrite (lookup_distinct k y e Hke Hin) in Hxy.
    apply item_eq_sym; [|exact Hxy].
    apply (IH _ Hx); [exact (Hvd _ Hx) | exact (Hve _ Hin)].
Qed.

(* ================================================================== *)
(** * Properties of the extractor                                      *)
(* ================================================================== *)

(** C1.  On a reply whose first "```json" is followed by a first "```",
    with a text between them that [json.loads] accepts once stripped, the
    extractor returns the parsed value.  On a reply with no "```json", on a
    reply whose first "```json" has no "```" after it, and on a reply whose
    fenced text is rejected by [json.loads], it returns the empty record. *)
Theorem extract_lead_data_fenced (json_loads : string -> result pyval) :
  (forall pre body rest v,
      first_at fence_open (pre ++ fence_open ++ body ++ fence_close ++ rest)
               (String.length pre) ->
      first_at fence_close (body ++ fence_close ++ rest)
               (String.length body) ->
      json_loads (strip body) = Returns v ->
      fst (extract_lead_data json_loads
             (pre ++ fence_open ++ body ++ fence_close ++ rest)) = v)
  /\ (forall response,
         ~ occurs fence_open response ->
         fst (extract_lead_data json_loads response) = PDict [])
  /\ (forall pre tail,
         first_at fence_open (pre ++ fence_open ++ tail) (String.length pre) ->
         ~ occurs fence_close tail ->
         fst (extract_lead_data json_loads (pre ++ fence_open ++ tail))
         = PDict [])
  /\ (forall pre body rest e,
         first_at fence_open
                  (pre ++ fence_open ++ body ++ fence_close ++ rest)
                  (String.length pre) ->
         first_at fence_close (body ++ fence_close ++ rest)
                  (String.length body) ->
         json_loads (strip body) = Raises e ->
         fst (extract_lead_data json_loads
                (pre ++ fence_open ++ body ++ fence_close ++ rest))
         = PDict []).
Proof.
  split; [|split; [|split]].
  - intros pre body rest v Hopen Hclose Hload.
    rewrite extract_first_block by assumption.
    unfold block_outcome. now rewrite Hload.
  - intros response H. now rewrite extract_no_open.
  - intros pre tail Hopen Hclose. now rewrite extract_no_close.
  - intros pre body rest e Hopen Hclose Hload.
    rewrite extract_first_block by assumption.
    unfold block_outcome. now rewrite Hload.
Qed.

Lemma extract_lead_data_fenced_witness :
  fst (extract_lead_data JsonReader.json_reader scenario_reply)
  = PDict [("email", PStr "a@b.com"); ("lead_quality", PStr "hot")]
  /\ fst (extract_lead_data JsonReader.json_reader "Tell me more.") = PDict []
  /\ fst (extract_lead_data JsonReader.json_reader "Noted ```json {}")
     = PDict []
  /\ fst (extract_lead_data JsonReader.json_reader "```json {oops} ``` bye")
     = PDict [].
Proof.
  destruct (extract_lead_data_fenced JsonReader.json_reader)
    as (Hvalid & Hnone & Hopen & Hbad).
  split; [|split; [|split]].
  - apply (Hvalid "Thanks! " scenario_body "").
    + apply first_at_index_of. reflexivity.
    + apply first_at_index_of. reflexivity.
    + reflexivity.
  - apply Hnone. apply index_of_not_occurs. reflexivity.
  - apply (Hopen "Noted " " {}").
    + apply first_at_index_of. reflexivity.
    + apply index_of_not_occurs. reflexivity.
  - apply (Hbad "" " {oops} " " bye" "Expecting value").
    + apply first_at_index_of. reflexivity.
    + apply first_at_index_of. reflexivity.
    + reflexivity.
Defined.

(** C2.  When the first "```json" of a reply is followed by a first "```",
    the extractor reads the text between these two and nothing else:
    whatever comes after that "```" (more backquotes on the same line, other
    fenced blocks), the outcome is that of the first block. *)
Theorem extract_lead_data_first_block_only
    (json_loads : string -> result pyval) (pre body rest : string) :
  first_at fence_open (pre ++ fence_open ++ body ++ fence_close ++ rest)
           (String.length pre) ->
  first_at fence_close (body ++ fence_close ++ rest) (String.length body) ->
  forall rest',
    extract_lead_data json_loads
      (pre ++ fence_open ++ body ++ fence_close ++ rest')
    = block_outcome json_loads body.
Proof.
  intros Hopen Hclose rest'. apply extract_first_block.
  - replace (pre ++ fence_open ++ body ++ fence_close ++ rest')
      with (pre ++ fence_open ++ (body ++ fence_close) ++ rest')
      by now rewrite append_assoc.
    apply first_at_any_rest with (x := (body ++ fence_close) ++ rest).
    now rewrite append_assoc.
  - exact (first_at_any_rest _ _ _ _ Hclose).
Qed.

Lemma extract_lead_data_first_block_only_witness :
  extract_lead_data JsonReader.json_reader two_blocks_reply
  = (PDict [("email", PStr "a@b.com")], [])
  /\ extract_lead_data JsonReader.json_reader two_blocks_reply
     = extract_lead_data JsonReader.json_reader one_block_reply.
Proof.
  assert (first_at fence_open one_block_reply 3) as Hopen
      by (apply first_at_index_of; reflexivity).
  assert (first_at fence_close (first_block_body ++ fence_close ++ "")
                   (String.length first_block_body)) as Hclose
      by (apply first_at_index_of; reflexivity).
  split.
  - exact (extract_lead_data_first_block_only JsonReader.json_reader
             "Hi " first_block_body "" Hopen Hclose later_text).
  - unfold two_blocks_reply.
    rewrite (extract_lead_data_first_block_only JsonReader.json_reader
               "Hi " first_block_body "" Hopen Hclose later_text).
    reflexivity.
Defined.

(** A later block is not read even when the first one is rejected. *)
Example later_block_is_ignored :
  extract_lead_data JsonReader.json_reader
    "```json {oops} ``` then ```json {} ```"
  = (PDict [], [StError "Error extracting lead data: Expecting value"]).
Proof. reflexivity. Qed.

(* ================================================================== *)
(** * The text displayed for an assistant message                      *)
(* ================================================================== *)

Lemma slice_to_take (s : string) (i : nat) :
  (i <= String.length s)%nat -> slice_to s (Z.of_nat i) = take i s.
Proof.
  intros Hi. rewrite <- (take_drop s i) at 1.
  replace (Z.of_nat i) with (len (take i s))
    by (unfold len; now rewrite length_take).
  apply slice_to_prefix.
Qed.

Lemma history_content_cut (s : string) :
  history_content (Message "assistant" s) = cut_at_fence s.
Proof.
  unfold history_content, cut_at_fence. cbn [role content].
  change ("assistant" =? "assistant")%string with true. cbv iota.
  rewrite find_from_start.
  destruct (index_of fence_open s) as [i|] eqn:E; [|reflexivity].
  assert (negb (Z.of_nat i =? -1) = true) as ->
      by (apply negb_true_iff, Z.eqb_neq; lia).
  apply slice_to_take. apply index_of_bound in E. lia.
Qed.

Lemma display_response_cut (s : string) :
  display_response s = Returns (cut_at_fence s).
Proof.
  unfold display_response, cut_at_fence.
  change (split s fence_open)
    with (Returns (split_loop (String.length s) fence_open s)).
  destruct s as [|c s]; [reflexivity|].
  cbn [String.length split_loop].
  now destruct (index_of fence_open (String c s)).
Qed.

Lemma cut_at_first_fence (pre tail : string) :
  first_at fence_open (pre ++ fence_open ++ tail) (String.length pre) ->
  cut_at_fence (pre ++ fence_open ++ tail) = pre.
Proof.
  intros H. unfold cut_at_fence. apply first_at_index_of in H.
  rewrite H. apply take_append.
Qed.

Lemma no_fence_before_first (pre tail : string) :
  first_at fence_open (pre ++ fence_open ++ tail) (String.length pre) ->
  ~ occurs fence_open pre.
Proof.
  intros [_ Hfirst] [j H].
  assert (j + String.length fence_open <= String.length pre)%nat as Hj.
  { destruct H as (a & b & -> & <-). rewrite !length_append. lia. }
  apply (Hfirst j); [simpl in Hj; lia|].
  rewrite <- (append_empty_r pre) in H.
  now apply occurs_at_common_prefix with (y := fence_open ++ tail) in H.
Qed.

(** C9.  An assistant message whose first "```json" stands after the text
    [pre] is displayed as [pre], in the history and as a fresh reply alike,
    and what is displayed holds no "```json"; the reply of the scenario is
    displayed as "Thanks! ". *)
Theorem displayed_text_stops_at_fence :
  (forall pre tail,
      first_at fence_open (pre ++ fence_open ++ tail) (String.length pre) ->
      history_content (Message "assistant" (pre ++ fence_open ++ tail)) = pre
      /\ display_response (pre ++ fence_open ++ tail) = Returns pre
      /\ ~ occurs fence_open pre)
  /\ history_content (Message "assistant" scenario_reply) = "Thanks! "
  /\ display_response scenario_reply = Returns "Thanks! ".
Proof.
  split; [|split; reflexivity].
  intros pre tail H. split; [|split].
  - rewrite history_content_cut. now apply cut_at_first_fence.
  - rewrite display_response_cut. f_equal. now apply cut_at_first_fence.
  - now apply no_fence_before_first with (tail := tail).
Qed.

Lemma displayed_text_stops_at_fence_witness :
  history_content (Message "assistant" two_blocks_reply) = "Hi "
  /\ display_response two_blocks_reply = Returns "Hi "
  /\ ~ occurs fence_open "Hi ".
Proof.
  apply (proj1 displayed_text_stops_at_fence "Hi "
           (first_block_body ++ fence_close ++ later_text)).
  apply first_at_index_of. reflexivity.
Defined.

(** C10.  The two displays agree on every assistant message: cutting at the
    offset found by [find] (the history) gives the text that [split] puts
    first (the fresh reply). *)
Theorem display_paths_agree (s : string) :
  display_response s = Returns (history_content (Message "assistant" s)).
Proof.
  rewrite display_response_cut, history_content_cut. reflexivity.
Qed.

(* ================================================================== *)
(** * Facts on dicts                                                   *)
(* ================================================================== *)

Lemma lookup_None (k : string) (d : dict) :
  lookup k d = None <-> ~ In k (keys d).
Proof.
  induction d as [|[k' v] d IH]; simpl.
  - tauto.
  - destruct (String.eqb_spec k' k) as [->|Hne].
    + split; [discriminate | intros H; exfalso; auto].
    + rewrite IH. tauto.
Qed.

Lemma lookup_dict_set (k k' : string) (v : pyval) (d : dict) :
  lookup k' (dict_set k v d) =
  if (k =? k')%string then Some v else lookup k' d.
Proof.
  induction d as [|[k0 v0] d IH]; simpl.
  - reflexivity.
  - destruct (String.eqb_spec k0 k) as [->|Hne]; simpl.
    + now destruct (String.eqb_spec k k').
    + rewrite IH. destruct (String.eqb_spec k0 k') as [->|_]; [|reflexivity].
      destruct (String.eqb_spec k k'); [congruence | reflexivity].
Qed.

Lemma keys_dict_set (k : string) (v : pyval) (d : dict) :
  keys (dict_set k v d) =
  if existsb (String.eqb k) (keys d) then keys d else (keys d ++ [k])%list.
Proof.
  induction d as [|[k0 v0] d IH]; simpl; [reflexivity|].
  rewrite (String.eqb_sym k k0).
  destruct (String.eqb_spec k0 k) as [->|Hne]; simpl; [reflexivity|].
  rewrite IH. now destruct (existsb (String.eqb k) (keys d)).
Qed.

Lemma In_keys_dict_set (k k' : string) (v : pyval) (d : dict) :
  In k' (keys d) -> In k' (keys (dict_set k v d)).
Proof.
  intros H. rewrite keys_dict_set.
  destruct (existsb (String.eqb k) (keys d)); [exact H|].
  apply in_or_app. now left.
Qed.

Lemma In_keys_dict_set_same (k : string) (v : pyval) (d : dict) :
  In k (keys (dict_set k v d)).
Proof.
  apply (in_map fst _ (k, v)), lookup_In.
  now rewrite lookup_dict_set, String.eqb_refl.
Qed.

Lemma dict_set_twice (k : string) (v1 v2 : pyval) (d : dict) :
  dict_set k v2 (dict_set k v1 d) = dict_set k v2 d.
Proof.
  induction d as [|[k0 v0] d IH]; simpl.
  - now rewrite String.eqb_refl.
  - destruct (String.eqb_spec k0 k) as [->|Hne]; simpl.
    + now rewrite String.eqb_refl.
    + destruct (String.eqb_spec k0 k); [congruence | now rewrite IH].
Qed.

Lemma dict_set_comm (k1 k2 : string) (v1 v2 : pyval) (d : dict) :
  k1 <> k2 -> In k1 (keys d) ->
  dict_set k1 v1 (dict_set k2 v2 d) = dict_set k2 v2 (dict_set k1 v1 d).
Proof.
  intros Hne. induction d as [|[k0 v0] d IH]; simpl; [contradiction|].
  intros Hin.
  destruct (String.eqb_spec k0 k2) as [E2|H2],
           (String.eqb_spec k0 k1) as [E1|H1]; subst; simpl.
  - congruence.
  - destruct (String.eqb_spec k2 k1); [congruence|].
    now rewrite String.eqb_refl.
  - rewrite String.eqb_refl. destruct (String.eqb_spec k1 k2); congruence.
  - destruct (String.eqb_spec k0 k1); [congruence|].
    destruct (String.eqb_spec k0 k2); [congruence|].
    rewrite IH; [reflexivity|]. destruct Hin; [congruence | assumption].
Qed.

Lemma dict_set_same (k : string) (v : pyval) (d : dict) :
  lookup k d = Some v -> dict_set k v d = d.
Proof.
  induction d as [|[k0 v0] d IH]; simpl; [discriminate|].
  destruct (String.eqb_spec k0 k) as [->|Hne].
  - now intros [= ->].
  - intros H. now rewrite IH.
Qed.

Lemma dict_update_cons (d : dict) (k : string) (v : pyval) (o : dict) :
  dict_update d ((k, v) :: o) = dict_update (dict_set k v d) o.
Proof. reflexivity. Qed.

Lemma lookup_dict_update_absent (k : string) (o d : dict) :
  ~ In k (keys o) -> lookup k (dict_update d o) = lookup k d.
Proof.
  revert d; induction o as [|[k0 v0] o IH]; intros d H; [reflexivity|].
  rewrite dict_update_cons, IH by (simpl in H; tauto).
  rewrite lookup_dict_set. simpl in H.
  destruct (String.eqb_spec k0 k); [tauto | reflexivity].
Qed.

Lemma lookup_dict_update_present (k : string) (v : pyval) (o d : dict) :
  NoDup (keys o) -> In (k, v) o -> lookup k (dict_update d o) = Some v.
Proof.
  revert d; induction o as [|[k0 v0] o IH]; intros d Hnd Hin; [contradiction|].
  simpl in Hnd. inversion Hnd as [|? ? Hfresh Hnd']; subst.
  rewrite dict_update_cons. destruct Hin as [[= -> ->]|Hin].
  - rewrite lookup_dict_update_absent by exact Hfresh.
    now rewrite lookup_dict_set, String.eqb_refl.
  - now apply IH.
Qed.

Lemma In_keys_dict_update (k : string) (o d : dict) :
  In k (keys d) -> In k (keys (dict_update d o)).
Proof.
  revert d; induction o as [|[k0 v0] o IH]; intros d H; [exact H|].
  rewrite dict_update_cons. apply IH. now apply In_keys_dict_set.
Qed.

(** A key set again later in [o] makes an earlier assignment useless. *)
Lemma dict_update_overwrites (k : string) (v : pyval) (o d : dict) :
  In k (keys o) -> In k (keys d) ->
  dict_update (dict_set k v d) o = dict_update d o.
Proof.
  revert d; induction o as [|[k0 v0] o IH]; intros d Ho Hd; [contradiction|].
  rewrite !dict_update_cons.
  destruct (string_dec k0 k) as [->|Hne].
  - now rewrite dict_set_twice.
  - rewrite <- (dict_set_comm k k0 v v0 d) by (congruence || assumption).
    apply IH.
    + simpl in Ho. destruct Ho; [congruence | assumption].
    + now apply In_keys_dict_set.
Qed.

(** Updating twice with the same dict is updating once. *)
Lemma dict_update_idempotent (o d : dict) :
  dict_update (dict_update d o) o = dict_update d o.
Proof.
  revert d; induction o as [|[k v] o IH]; intros d; [reflexivity|].
  rewrite !dict_update_cons.
  destruct (in_dec string_dec k (keys o)) as [Hin|Hout].
  - rewrite dict_update_overwrites; [apply IH | exact Hin |].
    apply In_keys_dict_update, In_keys_dict_set_same.
  - rewrite dict_set_same; [apply IH|].
    rewrite lookup_dict_update_absent by exact Hout.
    now rewrite lookup_dict_set, String.eqb_refl.
Qed.

Lemma dict_update_self_aux (p o : dict) :
  NoDup (keys (p ++ o)%list) -> dict_update (p ++ o)%list o = (p ++ o)%list.
Proof.
  revert p; induction o as [|[k v] o IH]; intros p Hnd; [reflexivity|].
  rewrite dict_update_cons, dict_set_same.
  - replace (p ++ (k, v) :: o)%list with ((p ++ [(k, v)]) ++ o)%list in *
      by now rewrite <- app_assoc.
    now apply IH.
  - apply lookup_distinct.
    + now apply distinct_NoDup.
    + apply in_or_app. right. now left.
Qed.

(** Updating a dict with itself changes nothing. *)
Lemma dict_update_self (d : dict) :
  NoDup (keys d) -> dict_update d d = d.
Proof. exact (dict_update_self_aux [] d). Qed.

Lemma filter_out_dict_set_same (k : string) (v : pyval) (d : dict) :
  filter (fun kv => negb (fst kv =? k)%string) (dict_set k v d)
  = filter (fun kv => negb (fst kv =? k)%string) d.
Proof.
  induction d as [|[k0 v0] d IH]; simpl.
  - now rewrite String.eqb_refl.
  - destruct (String.eqb_spec k0 k) as [->|Hne]; simpl.
    + now rewrite String.eqb_refl.
    + apply String.eqb_neq in Hne. now rewrite Hne, IH.
Qed.

Lemma filter_out_dict_set_other (k k' : string) (v : pyval) (d : dict) :
  k <> k' ->
  filter (fun kv => negb (fst kv =? k')%string) (dict_set k v d)
  = dict_set k v (filter (fun kv => negb (fst kv =? k')%string) d).
Proof.
  intros Hk. apply String.eqb_neq in Hk.
  induction d as [|[k0 v0] d IH]; simpl.
  - now rewrite Hk.
  - destruct (String.eqb_spec k0 k) as [->|Hne]; simpl.
    + rewrite Hk. simpl. now rewrite String.eqb_refl.
    + destruct (k0 =? k')%string; simpl; [exact IH|].
      apply String.eqb_neq in Hne. now rewrite Hne, IH.
Qed.

Lemma strip_dict_set_timestamp (v : pyval) (d : dict) :
  strip_timestamp (dict_set "timestamp" v d) = strip_timestamp d.
Proof. apply filter_out_dict_set_same. Qed.

Lemma strip_dict_set_other (k : string) (v : pyval) (d : dict) :
  k <> "timestamp" ->
  strip_timestamp (dict_set k v d) = dict_set k v (strip_timestamp d).
Proof. apply filter_out_dict_set_other. Qed.

Lemma strip_timestamp_cons (k : string) (v : pyval) (d : dict) :
  strip_timestamp ((k, v) :: d)
  = if (k =? "timestamp")%string then strip_timestamp d
    else (k, v) :: strip_timestamp d.
Proof.
  unfold strip_timestamp. cbn [filter fst].
  now destruct (k =? "timestamp")%string.
Qed.

Lemma strip_dict_update (o d : dict) :
  strip_timestamp (dict_update d o)
  = dict_update (strip_timestamp d) (strip_timestamp o).
Proof.
  revert d; induction o as [|[k v] o IH]; intros d; [reflexivity|].
  rewrite dict_update_cons, IH, strip_timestamp_cons.
  destruct (String.eqb_spec k "timestamp") as [->|Hne].
  - now rewrite strip_dict_set_timestamp.
  - rewrite dict_update_cons. now rewrite strip_dict_set_other.
Qed.

Lemma keys_strip_timestamp (d : dict) :
  keys (strip_timestamp d)
  = filter (fun k => negb (k =? "timestamp")%string) (keys d).
Proof.
  induction d as [|[k v] d IH]; [reflexivity|].
  rewrite strip_timestamp_cons. cbn [keys map fst filter].
  destruct (k =? "timestamp")%string; cbn [negb keys map fst];
    fold (keys d); fold (keys (strip_timestamp d)); now rewrite IH.
Qed.

Lemma NoDup_keys_strip_timestamp (d : dict) :
  NoDup (keys d) -> NoDup (keys (strip_timestamp d)).
Proof. intros H. rewrite keys_strip_timestamp. now apply NoDup_filter. Qed.

Lemma get_stamped_other (now k : string) (d : dict) :
  k <> "timestamp" -> get (stamped now d) k = get d k.
Proof.
  intros Hk. unfold get, stamped. rewrite lookup_dict_set.
  destruct (String.eqb_spec "timestamp" k); [congruence | reflexivity].
Qed.

Lemma get_stamped_email (now : string) (d : dict) :
  get (stamped now d) "email" = get d "email".
Proof. now apply get_stamped_other. Qed.

Lemma NoDup_keys_dict_set (k : string) (v : pyval) (d : dict) :
  NoDup (keys d) -> NoDup (keys (dict_set k v d)).
Proof.
  intros H. rewrite keys_dict_set.
  destruct (existsb (String.eqb k) (keys d)) eqn:E; [exact H|].
  apply NoDup_app; [exact H | repeat constructor; simpl; tauto |].
  intros k' Hk' [<-|[]].
  assert (existsb (String.eqb k) (keys d) = true); [|congruence].
  apply existsb_exists. exists k. split; [exact Hk' | apply String.eqb_refl].
Qed.

Lemma keys_stamped_NoDup (now : string) (d : dict) :
  NoDup (keys d) -> NoDup (keys (stamped now d)).
Proof. apply NoDup_keys_dict_set. Qed.

Lemma strip_stamped (now : string) (d : dict) :
  strip_timestamp (stamped now d) = strip_timestamp d.
Proof. apply strip_dict_set_timestamp. Qed.

(** Merging the same record a second time only moves the time stamp. *)
Lemma strip_update_twice (t1 t2 : string) (lead d : dict) :
  strip_timestamp (dict_update (dict_update lead (stamped t1 d)) (stamped t2 d))
  = strip_timestamp (dict_update lead (stamped t1 d)).
Proof.
  rewrite !strip_dict_update, !strip_stamped. apply dict_update_idempotent.
Qed.

Lemma strip_update_stamped_self (t1 t2 : string) (d : dict) :
  NoDup (keys d) ->
  strip_timestamp (dict_update (stamped t1 d) (stamped t2 d))
  = strip_timestamp (stamped t1 d).
Proof.
  intros H. rewrite strip_dict_update, !strip_stamped.
  apply dict_update_self. now apply NoDup_keys_strip_timestamp.
Qed.

(* ================================================================== *)
(** * The registry under [update_lead_info]                            *)
(* ================================================================== *)

Lemma same_email_stamped (now : string) (x d : dict) :
  same_email x (stamped now d) = same_email x d.
Proof. unfold same_email. now rewrite get_stamped_email. Qed.

Lemma scan_leads_none (r : dict) (leads : list dict) :
  scan_leads r leads = None <->
  Forall (fun x => same_email x r = false) leads.
Proof.
  induction leads as [|x t IH]; simpl.
  - split; [constructor | reflexivity].
  - fold (same_email x r). destruct (same_email x r) eqn:E.
    + split; [discriminate|]. intros H. inversion H; congruence.
    + destruct (scan_leads r t); simpl.
      * split; [discriminate|]. intros H. inversion H; subst.
        assert (Some l = None) by now apply IH. discriminate.
      * split; [|reflexivity]. intros _. constructor; [exact E | now apply IH].
Qed.

Lemma scan_leads_found (r : dict) (l1 : list dict) (lead : dict)
    (l2 : list dict) :
  Forall (fun x => same_email x r = false) l1 ->
  same_email lead r = true ->
  scan_leads r (l1 ++ lead :: l2)%list
  = Some (l1 ++ dict_update lead r :: l2)%list.
Proof.
  intros Hl1 Hlead. induction Hl1 as [|x l1 Hx _ IH]; simpl.
  - fold (same_email lead r). now rewrite Hlead.
  - fold (same_email x r). now rewrite Hx, IH.
Qed.

Lemma scan_leads_some (r : dict) (leads leads' : list dict) :
  scan_leads r leads = Some leads' ->
  exists l1 lead l2,
    leads = (l1 ++ lead :: l2)%list /\
    leads' = (l1 ++ dict_update lead r :: l2)%list /\
    Forall (fun x => same_email x r = false) l1 /\
    same_email lead r = true.
Proof.
  revert leads'; induction leads as [|x t IH]; intros leads'; simpl;
    [discriminate|].
  fold (same_email x r). destruct (same_email x r) eqn:E.
  - intros [= <-]. exists [], x, t. auto.
  - destruct (scan_leads r t) as [t'|]; [|discriminate].
    intros [= <-]. destruct (IH t' eq_refl) as (l1 & lead & l2 & -> & -> & A & B).
    exists (x :: l1), lead, l2. auto.
Qed.

(** What [update_lead_info] does with a non-empty dict. *)
Lemma update_lead_info_dict (now : string) (d : dict) (leads : list dict) :
  d <> [] ->
  update_lead_info now (PDict d) leads =
  Returns (if truthy (get d "email") then
             match scan_leads (stamped now d) leads with
             | Some leads' => leads'
             | None => (leads ++ [stamped now d])%list
             end
           else (leads ++ [stamped now d])%list).
Proof.
  intros Hd. unfold update_lead_info.
  destruct d as [|kv d]; [congruence|]. cbn [truthy negb].
  fold (stamped now (kv :: d)). rewrite get_stamped_email.
  destruct (truthy (get (kv :: d) "email")); [|reflexivity].
  now destruct (scan_leads (stamped now (kv :: d)) leads).
Qed.

Lemma update_lead_info_falsy (now : string) (v : pyval) (leads : list dict) :
  truthy v = false -> update_lead_info now v leads = Returns leads.
Proof. intros H. unfold update_lead_info. now rewrite H. Qed.

Lemma update_lead_info_returns (now : string) (v : pyval)
    (leads leads' : list dict) :
  update_lead_info now v leads = Returns leads' ->
  (truthy v = false /\ leads' = leads) \/
  (exists d, v = PDict d /\ d <> []).
Proof.
  unfold update_lead_info. destruct (truthy v) eqn:E; simpl.
  - destruct v as [ | | | | | | d ]; try discriminate.
    intros _. right. exists d. split; [reflexivity|].
    intros ->. discriminate.
  - intros [= <-]. now left.
Qed.

Lemma update_lead_info_merge (now : string) (d : dict) (l1 : list dict)
    (lead : dict) (l2 : list dict) :
  d <> [] ->
  truthy (get d "email") = true ->
  Forall (fun x => same_email x d = false) l1 ->
  same_email lead d = true ->
  update_lead_info now (PDict d) (l1 ++ lead :: l2)%list
  = Returns (l1 ++ dict_update lead (stamped now d) :: l2)%list.
Proof.
  intros Hd He Hl1 Hlead. rewrite update_lead_info_dict, He by exact Hd.
  rewrite scan_leads_found; [reflexivity | | now rewrite same_email_stamped].
  eapply Forall_impl; [|exact Hl1]. intros x Hx.
  now rewrite same_email_stamped.
Qed.

Lemma update_lead_info_append (now : string) (d : dict) (leads : list dict) :
  d <> [] ->
  truthy (get d "email") = false ->
  update_lead_info now (PDict d) leads
  = Returns (leads ++ [stamped now d])%list.
Proof. intros Hd He. now rewrite update_lead_info_dict, He. Qed.

(** C3.  Upserting [{email: "a@x.com", lead_quality: "warm"}] into the empty
    registry and then [{email: "a@x.com", company: "Acme"}] leaves one
    record, with the three fields and the second time stamp.  In general
    the incoming fields are written into the first record with the incoming
    email, and the records after it are not looked at. *)
Theorem update_lead_info_merges_first_match :
  (forall t1 t2,
      update_lead_info t1
        (PDict [("email", PStr "a@x.com"); ("lead_quality", PStr "warm")]) []
      = Returns [[("email", PStr "a@x.com"); ("lead_quality", PStr "warm");
                  ("timestamp", PStr t1)]]
      /\ update_lead_info t2
           (PDict [("email", PStr "a@x.com"); ("company", PStr "Acme")])
           [[("email", PStr "a@x.com"); ("lead_quality", PStr "warm");
             ("timestamp", PStr t1)]]
         = Returns [[("email", PStr "a@x.com"); ("lead_quality", PStr "warm");
                     ("timestamp", PStr t2); ("company", PStr "Acme")]])
  /\ (forall now d l1 lead l2,
         d <> [] ->
         truthy (get d "email") = true ->
         Forall (fun x => same_email x d = false) l1 ->
         same_email lead d = true ->
         update_lead_info now (PDict d) (l1 ++ lead :: l2)%list
         = Returns (l1 ++ dict_update lead (stamped now d) :: l2)%list).
Proof.
  split.
  - intros t1 t2. split; reflexivity.
  - intros now d l1 lead l2. apply update_lead_info_merge.
Qed.

Lemma update_lead_info_merges_first_match_witness :
  update_lead_info "2024-05-02T10:00:00"
    (PDict [("email", PStr "a@x.com"); ("company", PStr "Acme")])
    [ [("name", PStr "Bo")];
      [("email", PStr "a@x.com"); ("lead_quality", PStr "warm")];
      [("email", PStr "a@x.com"); ("lead_quality", PStr "cold")] ]
  = Returns
      [ [("name", PStr "Bo")];
        [("email", PStr "a@x.com"); ("lead_quality", PStr "warm");
         ("company", PStr "Acme"); ("timestamp", PStr "2024-05-02T10:00:00")];
        [("email", PStr "a@x.com"); ("lead_quality", PStr "cold")] ].
Proof.
  apply (proj2 update_lead_info_merges_first_match "2024-05-02T10:00:00"
           [("email", PStr "a@x.com"); ("company", PStr "Acme")]
           [[("name", PStr "Bo")]]
           [("email", PStr "a@x.com"); ("lead_quality", PStr "warm")]
           [[("email", PStr "a@x.com"); ("lead_quality", PStr "cold")]]).
  - discriminate.
  - reflexivity.
  - repeat constructor.
  - reflexivity.
Defined.

(* ================================================================== *)
(** * Emails stay unique                                               *)
(* ================================================================== *)

Lemma well_formed_dict (d : dict) :
  well_formed (PDict d) = true ->
  NoDup (keys d) /\ forall k v, In (k, v) d -> well_formed v = true.
Proof.
  simpl. intros H. apply andb_true_iff in H as [Hk Hv]. split.
  - now apply distinct_NoDup.
  - intros k v Hin. rewrite forallb_forall in Hv. exact (Hv _ Hin).
Qed.

Lemma well_formed_get (d : dict) (k : string) :
  well_formed (PDict d) = true -> well_formed (get d k) = true.
Proof.
  intros H. apply well_formed_dict in H as [_ H]. unfold get.
  destruct (lookup k d) as [v|] eqn:E; [|reflexivity].
  exact (H k v (lookup_In _ _ _ E)).
Qed.

Lemma pairs_ordered (leads : list dict) :
  ForallOrdPairs emails_differ leads ->
  forall i j a b,
    (i < j)%nat -> nth_error leads i = Some a -> nth_error leads j = Some b ->
    emails_differ a b.
Proof.
  induction 1 as [|x t Hx _ IH]; intros i j a b Hij Ha Hb.
  - now destruct i.
  - destruct j as [|j]; [lia|]. cbn [nth_error] in Hb.
    destruct i as [|i]; cbn [nth_error] in Ha.
    + injection Ha as <-. rewrite Forall_forall in Hx.
      exact (Hx b (nth_error_In _ _ Hb)).
    + exact (IH i j a b ltac:(lia) Ha Hb).
Qed.

(** On Python dicts the order of the two records does not matter. *)
Lemma pairs_unique (leads : list dict) :
  well_formed_leads leads ->
  ForallOrdPairs emails_differ leads ->
  unique_emails leads.
Proof.
  intros Hwf Hpairs i j a b Hij Ha Hb Hea Heb.
  destruct (Nat.lt_total i j) as [Hlt|[->|Hgt]]; [|congruence|].
  - exact (pairs_ordered leads Hpairs i j a b Hlt Ha Hb Hea Heb).
  - pose proof (pairs_ordered leads Hpairs j i b a Hgt Hb Ha Heb Hea) as Hba.
    unfold same_email in *.
    destruct (py_eq (get a "email") (get b "email")) eqn:E; [|reflexivity].
    unfold well_formed_leads in Hwf. rewrite Forall_forall in Hwf.
    apply py_eq_sym in E; [congruence | |];
      apply well_formed_get, Hwf; eapply nth_error_In; eassumption.
Qed.

Lemma pairs_app (R : dict -> dict -> Prop) (a b : list dict) :
  ForallOrdPairs R (a ++ b)%list <->
  ForallOrdPairs R a /\ ForallOrdPairs R b /\
  (forall x y, In x a -> In y b -> R x y).
Proof.
  induction a as [|x a IH]; simpl.
  - split; [intros H; repeat split; [constructor | exact H | tauto]|].
    now intros (_ & H & _).
  - split.
    + intros H. inversion H as [|? ? Hx Ht]; subst.
      apply IH in Ht as (Ha & Hb & Hab). rewrite Forall_app in Hx.
      destruct Hx as [Hxa Hxb]. repeat split; [now constructor | exact Hb |].
      intros u v [<-|Hu] Hv; [|now apply Hab].
      rewrite Forall_forall in Hxb. now apply Hxb.
    + intros (Ha & Hb & Hab). inversion Ha as [|? ? Hx Ht]; subst.
      constructor.
      * apply Forall_app. split; [exact Hx|]. apply Forall_forall.
        intros y Hy. apply Hab; [now left | exact Hy].
      * apply IH. repeat split; [exact Ht | exact Hb |].
        intros u v Hu Hv. apply Hab; [now right | exact Hv].
Qed.

Lemma get_email_merged (lead r : dict) :
  NoDup (keys r) -> truthy (get r "email") = true ->
  get (dict_update lead r) "email" = get r "email".
Proof.
  intros Hnd He. unfold get in *.
  destruct (lookup "email" r) as [e|] eqn:E; [|discriminate].
  now rewrite (lookup_dict_update_present "email" e r lead Hnd
                 (lookup_In _ _ _ E)).
Qed.

(** One call keeps the emails unique. *)
Lemma update_lead_info_keeps_pairs (now : string) (v : pyval)
    (leads leads' : list dict) :
  well_formed v = true ->
  ForallOrdPairs emails_differ leads ->
  update_lead_info now v leads = Returns leads' ->
  ForallOrdPairs emails_differ leads'.
Proof.
  intros Hwf Hinv Hrun.
  destruct (update_lead_info_returns _ _ _ _ Hrun)
    as [[_ ->]|(d & -> & Hd)]; [exact Hinv|].
  rewrite update_lead_info_dict in Hrun by exact Hd.
  apply well_formed_dict in Hwf as [Hnd _].
  assert (ForallOrdPairs emails_differ [stamped now d]) as Hone
      by (constructor; constructor).
  destruct (truthy (get d "email")) eqn:He.
  - destruct (scan_leads (stamped now d) leads) as [merged|] eqn:Hscan;
      injection Hrun as <-.
    + apply scan_leads_some in Hscan
        as (l1 & lead & l2 & -> & -> & Hl1 & Hlead).
      assert (get (dict_update lead (stamped now d)) "email"
              = get d "email") as Hmail.
      { rewrite get_email_merged, get_stamped_email;
          [reflexivity | now apply keys_stamped_NoDup |].
        now rewrite get_stamped_email. }
      rewrite same_email_stamped in Hlead.
      apply pairs_app in Hinv as (H1 & H2 & H12).
      inversion H2 as [|? ? Hlead2 Hl2]; subst.
      apply pairs_app. split; [exact H1|]. split.
      * constructor; [|exact Hl2]. apply Forall_forall. intros y Hy _ Hey.
        unfold same_email. rewrite Hmail.
        destruct (py_eq (get d "email") (get y "email")) eqn:E;
          [|reflexivity].
        rewrite Forall_forall in Hlead2.
        assert (same_email lead y = true) as Hly
            by exact (py_eq_trans _ _ _ Hlead E).
        rewrite Hlead2 in Hly; [discriminate | exact Hy | | exact Hey].
        unfold same_email in Hlead. now rewrite (py_eq_truthy _ _ Hlead).
      * intros x y Hx [<-|Hy]; [|apply H12; [exact Hx | now right]].
        intros _ _. unfold same_email. rewrite Hmail.
        rewrite Forall_forall in Hl1. specialize (Hl1 x Hx).
        now rewrite same_email_stamped in Hl1.
    + apply pairs_app. split; [exact Hinv|]. split; [exact Hone|].
      intros x y Hx [<-|[]] _ _.
      apply scan_leads_none in Hscan. rewrite Forall_forall in Hscan.
      exact (Hscan x Hx).
  - injection Hrun as <-.
    apply pairs_app. split; [exact Hinv|]. split; [exact Hone|].
    intros x y Hx [<-|[]] _ Hy.
    rewrite get_stamped_email in Hy. congruence.
Qed.

Lemma In_dict_set (k k' : string) (v v' : pyval) (d : dict) :
  In (k', v') (dict_set k v d) -> (k', v') = (k, v) \/ In (k', v') d.
Proof.
  induction d as [|[k0 v0] d IH]; simpl.
  - intros [H|[]]. now left.
  - destruct (k0 =? k)%string; simpl.
    + intros [H|H]; [now left | now right; right].
    + intros [H|H]; [now right; left|]. destruct (IH H); auto.
Qed.

Lemma well_formed_dict_intro (d : dict) :
  NoDup (keys d) -> (forall k v, In (k, v) d -> well_formed v = true) ->
  well_formed (PDict d) = true.
Proof.
  intros Hk Hv. simpl. apply andb_true_iff. split.
  - now apply distinct_NoDup.
  - apply forallb_forall. intros [k v] Hin. exact (Hv k v Hin).
Qed.

Lemma well_formed_dict_set (k : string) (v : pyval) (d : dict) :
  well_formed v = true -> well_formed (PDict d) = true ->
  well_formed (PDict (dict_set k v d)) = true.
Proof.
  intros Hv Hd. apply well_formed_dict in Hd as [Hk Hvals].
  apply well_formed_dict_intro; [now apply NoDup_keys_dict_set|].
  intros k' v' Hin. apply In_dict_set in Hin as [[= -> ->]|Hin];
    [exact Hv | exact (Hvals _ _ Hin)].
Qed.

Lemma well_formed_dict_update (o d : dict) :
  well_formed (PDict o) = true -> well_formed (PDict d) = true ->
  well_formed (PDict (dict_update d o)) = true.
Proof.
  intros Ho. apply well_formed_dict in Ho as [_ Ho].
  revert d; induction o as [|[k v] o IH]; intros d Hd; [exact Hd|].
  rewrite dict_update_cons. apply IH.
  - intros k' v' Hin. apply (Ho k' v'). now right.
  - apply well_formed_dict_set; [|exact Hd]. apply (Ho k v). now left.
Qed.

Lemma well_formed_stamped (now : string) (d : dict) :
  well_formed (PDict d) = true -> well_formed (PDict (stamped now d)) = true.
Proof. now apply well_formed_dict_set. Qed.

(** One call keeps the records Python dicts. *)
Lemma update_lead_info_keeps_well_formed (now : string) (v : pyval)
    (leads leads' : list dict) :
  well_formed v = true ->
  well_formed_leads leads ->
  update_lead_info now v leads = Returns leads' ->
  well_formed_leads leads'.
Proof.
  unfold well_formed_leads. intros Hwf Hleads Hrun.
  destruct (update_lead_info_returns _ _ _ _ Hrun)
    as [[_ ->]|(d & -> & Hd)]; [exact Hleads|].
  rewrite update_lead_info_dict in Hrun by exact Hd.
  pose proof (well_formed_stamped now d Hwf) as Hst.
  assert (Forall (fun lead => well_formed (PDict lead) = true)
            (leads ++ [stamped now d])%list) as Happ
      by (apply Forall_app; split; [exact Hleads | now constructor]).
  destruct (truthy (get d "email")); [|now injection Hrun as <-].
  destruct (scan_leads (stamped now d) leads) as [merged|] eqn:Hscan;
    injection Hrun as <-; [|exact Happ].
  apply scan_leads_some in Hscan as (l1 & lead & l2 & -> & -> & _ & _).
  apply Forall_app in Hleads as [H1 H2]. inversion H2; subst.
  apply Forall_app. split; [exact H1|]. constructor; [|assumption].
  now apply well_formed_dict_update.
Qed.

Lemma reachable_invariant (leads : list dict) :
  reachable leads ->
  well_formed_leads leads /\ ForallOrdPairs emails_differ leads.
Proof.
  induction 1 as [|now v leads leads' _ [IHwf IHpairs] Hwf Hrun].
  - split; constructor.
  - split.
    + exact (update_lead_info_keeps_well_formed now v _ _ Hwf IHwf Hrun).
    + exact (update_lead_info_keeps_pairs now v _ _ Hwf IHpairs Hrun).
Qed.

Lemma reachable_unique_emails (leads : list dict) :
  reachable leads -> unique_emails leads.
Proof.
  intros H. apply reachable_invariant in H as [Hwf Hpairs].
  now apply pairs_unique.
Qed.

(** A value other than [NaN] equals itself, so two records of a registry
    that the program built hold the same non-empty email only if it is
    [NaN]. *)
Lemma reachable_shared_only_nan (leads : list dict) :
  reachable leads -> shared_only_nan leads.
Proof.
  intros H i j lead lead' Hij Hi Hj [Ht Hsame].
  pose proof (reachable_unique_emails leads H i j lead lead' Hij Hi Hj Ht)
    as Hu.
  rewrite Hsame in Hu. specialize (Hu Ht).
  unfold same_email in Hu. rewrite Hsame in Hu.
  destruct (is_nan (get lead "email")) eqn:E; [now apply is_nan_true|].
  rewrite py_eq_refl in Hu; [discriminate | | exact E].
  apply well_formed_get. apply reachable_invariant in H as [Hwf _].
  unfold well_formed_leads in Hwf. rewrite Forall_forall in Hwf.
  apply Hwf. exact (nth_error_In _ _ Hi).
Qed.

Lemma nan_registry_reachable : reachable nan_registry.
Proof.
  apply (reachable_update "T2" (PDict nan_record) [stamped "T1" nan_record]);
    [|reflexivity|reflexivity].
  apply (reachable_update "T1" (PDict nan_record) []);
    [constructor|reflexivity|reflexivity].
Qed.

(** Every record stays at its index, as it was or merged. *)
Lemma update_lead_info_keeps_index (now : string) (v : pyval)
    (leads leads' : list dict) (i : nat) (lead : dict) :
  update_lead_info now v leads = Returns leads' ->
  nth_error leads i = Some lead ->
  exists lead',
    nth_error leads' i = Some lead' /\
    (lead' = lead \/
     exists d, v = PDict d /\ same_email lead d = true /\
               lead' = dict_update lead (stamped now d)).
Proof.
  intros Hrun Hi.
  destruct (update_lead_info_returns _ _ _ _ Hrun)
    as [[_ ->]|(d & -> & Hd)]; [now exists lead; auto|].
  rewrite update_lead_info_dict in Hrun by exact Hd.
  assert (nth_error (leads ++ [stamped now d])%list i = Some lead) as Happ.
  { rewrite nth_error_app1; [exact Hi|]. apply nth_error_Some. congruence. }
  destruct (truthy (get d "email")).
  - destruct (scan_leads (stamped now d) leads) as [merged|] eqn:Hscan;
      injection Hrun as <-; [|now exists lead; auto].
    apply scan_leads_some in Hscan as (l1 & x & l2 & -> & -> & _ & Hx).
    rewrite same_email_stamped in Hx.
    destruct (Nat.lt_trichotomy i (List.length l1)) as [Hlt|[->|Hgt]].
    + rewrite nth_error_app1 in Hi |- * by exact Hlt. exists lead. auto.
    + rewrite nth_error_app2, Nat.sub_diag in Hi |- * by lia.
      injection Hi as <-. exists (dict_update x (stamped now d)).
      split; [reflexivity|]. right. exists d. auto.
    + rewrite nth_error_app2 in Hi |- * by lia.
      destruct (i - List.length l1)%nat as [|n] eqn:E; [lia|].
      exists lead. auto.
  - injection Hrun as <-. exists lead. auto.
Qed.

(** C4.  In a registry built from the empty one by calls of
    [update_lead_info], no two records hold non-empty emails that [==] finds
    equal, so that two records hold the same non-empty email only when it is
    the float [NaN]; a call leaves every record at its index, unchanged or
    merged with the incoming record; and a record with no email, or an empty
    one, is appended. *)
Theorem registry_invariants :
  (forall leads,
      reachable leads -> unique_emails leads /\ shared_only_nan leads)
  /\ (forall now v leads leads' i lead,
         update_lead_info now v leads = Returns leads' ->
         nth_error leads i = Some lead ->
         exists lead',
           nth_error leads' i = Some lead' /\
           (lead' = lead \/
            exists d, v = PDict d /\ same_email lead d = true /\
                      lead' = dict_update lead (stamped now d)))
  /\ (forall now d leads,
         d <> [] ->
         truthy (get d "email") = false ->
         update_lead_info now (PDict d) leads
         = Returns (leads ++ [stamped now d])%list).
Proof.
  split; [|split].
  - intros leads H. split.
    + now apply reachable_unique_emails.
    + now apply reachable_shared_only_nan.
  - exact update_lead_info_keeps_index.
  - exact update_lead_info_append.
Qed.

(** The claim of C4 fails as it is written: after two replies that give the
    float [NaN] for email, the registry holds two records with this same
    non-empty email. *)
Lemma nan_email_stored_twice :
  reachable nan_registry
  /\ nth_error nan_registry 0 = Some (stamped "T1" nan_record)
  /\ nth_error nan_registry 1 = Some (stamped "T2" nan_record)
  /\ share_email (stamped "T1" nan_record) (stamped "T2" nan_record).
Proof.
  split; [exact nan_registry_reachable|]. repeat split.
Qed.

(* ================================================================== *)
(** * Calling [update_lead_info] twice with the same record            *)
(* ================================================================== *)

Lemma scan_leads_nan (r : dict) (leads : list dict) :
  is_nan (get r "email") = true -> scan_leads r leads = None.
Proof.
  intros H. apply is_nan_true in H. apply scan_leads_none.
  apply Forall_forall. intros x _. unfold same_email. rewrite H.
  apply py_eq_nan_r.
Qed.

Lemma same_email_self (now now' : string) (lead d : dict) :
  well_formed (PDict d) = true ->
  truthy (get d "email") = true ->
  is_nan (get d "email") = false ->
  get lead "email" = get d "email" ->
  same_email lead (stamped now' d) = true.
Proof.
  intros Hwf He Hnan Hlead. rewrite same_email_stamped.
  unfold same_email. rewrite Hlead.
  apply py_eq_refl; [now apply well_formed_get | exact Hnan].
Qed.

(** The second call finds the record that the first one wrote. *)
Lemma update_lead_info_again (t1 t2 : string) (d : dict)
    (leads leads1 : list dict) :
  d <> [] ->
  well_formed (PDict d) = true ->
  truthy (get d "email") = true ->
  is_nan (get d "email") = false ->
  update_lead_info t1 (PDict d) leads = Returns leads1 ->
  exists leads2,
    update_lead_info t2 (PDict d) leads1 = Returns leads2 /\
    map strip_timestamp leads2 = map strip_timestamp leads1.
Proof.
  intros Hd Hwf He Hnan Hrun.
  pose proof (proj1 (well_formed_dict d Hwf)) as Hnd.
  rewrite update_lead_info_dict in Hrun |- * by exact Hd.
  rewrite He in Hrun |- *.
  destruct (scan_leads (stamped t1 d) leads) as [merged|] eqn:Hscan;
    injection Hrun as <-.
  - apply scan_leads_some in Hscan as (l1 & x & l2 & -> & -> & Hl1 & Hx).
    rewrite scan_leads_found.
    + eexists. split; [reflexivity|].
      rewrite !map_app. cbn [map]. now rewrite strip_update_twice.
    + eapply Forall_impl; [|exact Hl1]. intros y Hy.
      cbv beta in Hy |- *. now rewrite same_email_stamped in Hy |- *.
    + apply same_email_self with (now := t1); try assumption.
      rewrite get_email_merged, get_stamped_email;
        [reflexivity | now apply keys_stamped_NoDup |].
      now rewrite get_stamped_email.
  - apply scan_leads_none in Hscan. rewrite scan_leads_found with (l2 := []).
    + eexists. split; [reflexivity|].
      rewrite !map_app. cbn [map].
      now rewrite strip_update_stamped_self.
    + eapply Forall_impl; [|exact Hscan]. intros y Hy.
      cbv beta in Hy |- *. now rewrite same_email_stamped in Hy |- *.
    + apply same_email_self with (now := t1); try assumption.
      apply get_stamped_email.
Qed.

(** Without a usable email both calls append. *)
Lemma update_lead_info_appends (now : string) (d : dict) (leads : list dict) :
  d <> [] ->
  truthy (get d "email") && negb (is_nan (get d "email")) = false ->
  update_lead_info now (PDict d) leads
  = Returns (leads ++ [stamped now d])%list.
Proof.
  intros Hd H. rewrite update_lead_info_dict by exact Hd.
  destruct (truthy (get d "email")); [|reflexivity].
  rewrite scan_leads_nan; [reflexivity|].
  rewrite get_stamped_email. simpl in H. now apply negb_false_iff.
Qed.

(** C6.  Calling [update_lead_info] twice in a row with the same non-empty
    record: in a registry that the program built, no two records then hold
    non-empty emails that [==] finds equal; when the record has a non-empty
    email other than the float [NaN] the second call adds no record and
    changes no field but [timestamp]; otherwise (no email, an empty one, or
    [NaN], which equals nothing) each call appends one record, and the two
    appended records differ by their [timestamp] at most. *)
Theorem update_lead_info_twice (t1 t2 : string) (d : dict)
    (leads : list dict) :
  d <> [] ->
  well_formed (PDict d) = true ->
  exists leads1 leads2,
    update_lead_info t1 (PDict d) leads = Returns leads1 /\
    update_lead_info t2 (PDict d) leads1 = Returns leads2 /\
    (reachable leads -> unique_emails leads2 /\ shared_only_nan leads2) /\
    if truthy (get d "email") && negb (is_nan (get d "email"))
    then List.length leads2 = List.length leads1 /\
         map strip_timestamp leads2 = map strip_timestamp leads1
    else leads1 = (leads ++ [stamped t1 d])%list /\
         exists first,
           leads2 = (leads ++ [first; stamped t2 d])%list /\
           strip_timestamp first = strip_timestamp (stamped t2 d).
Proof.
  intros Hd Hwf.
  assert (forall leads1 leads2,
             update_lead_info t1 (PDict d) leads = Returns leads1 ->
             update_lead_info t2 (PDict d) leads1 = Returns leads2 ->
             reachable leads ->
             unique_emails leads2 /\ shared_only_nan leads2) as Hkeep.
  { intros leads1 leads2 H1 H2 Hr.
    assert (reachable leads2) as Hr2.
    { apply (reachable_update t2 (PDict d) leads1 leads2);
        [|exact Hwf|exact H2].
      exact (reachable_update t1 (PDict d) leads leads1 Hr Hwf H1). }
    split; [now apply reachable_unique_emails
           | now apply reachable_shared_only_nan]. }
  destruct (truthy (get d "email") && negb (is_nan (get d "email"))) eqn:E.
  - apply andb_true_iff in E as [He Hnan]. apply negb_true_iff in Hnan.
    destruct (update_lead_info t1 (PDict d) leads) as [leads1|] eqn:H1.
    2:{ rewrite update_lead_info_dict in H1 by exact Hd. discriminate. }
    destruct (update_lead_info_again t1 t2 d leads leads1 Hd Hwf He Hnan H1)
      as (leads2 & H2 & Hsame).
    exists leads1, leads2.
    split; [reflexivity|]. split; [exact H2|].
    split; [exact (Hkeep leads1 leads2 eq_refl H2)|]. split; [|exact Hsame].
    rewrite <- (length_map strip_timestamp leads2), Hsame.
    apply length_map.
  - exists (leads ++ [stamped t1 d])%list,
           (leads ++ [stamped t1 d; stamped t2 d])%list.
    assert (update_lead_info t1 (PDict d) leads
            = Returns (leads ++ [stamped t1 d])%list) as H1
        by now apply update_lead_info_appends.
    assert (update_lead_info t2 (PDict d) (leads ++ [stamped t1 d])%list
            = Returns (leads ++ [stamped t1 d; stamped t2 d])%list) as H2.
    { rewrite update_lead_info_appends by assumption.
      now rewrite <- app_assoc. }
    split; [exact H1|]. split; [exact H2|].
    split; [exact (Hkeep _ _ H1 H2)|]. split; [reflexivity|].
    exists (stamped t1 d). split; [reflexivity|].
    now rewrite !strip_stamped.
Qed.

(** The claim of C6 fails as it is written: the record read from the reply
    [nan_reply] has a non-empty email, the float [NaN], and the second call
    with it adds a second record with this email. *)
Lemma nan_record_appended_twice :
  fst (extract_lead_data JsonReader.json_reader nan_reply) = PDict nan_record
  /\ truthy (get nan_record "email") = true
  /\ update_lead_info "T1" (PDict nan_record) []
     = Returns [stamped "T1" nan_record]
  /\ update_lead_info "T2" (PDict nan_record) [stamped "T1" nan_record]
     = Returns [stamped "T1" nan_record; stamped "T2" nan_record]
  /\ get (stamped "T2" nan_record) "email"
     = get (stamped "T1" nan_record) "email".
Proof. repeat split. Qed.

(* ================================================================== *)
(** * What one call changes                                            *)
(* ================================================================== *)

Lemma lookup_stamped_timestamp (now : string) (d : dict) :
  lookup "timestamp" (stamped now d) = Some (PStr now).
Proof. unfold stamped. now rewrite lookup_dict_set. Qed.

Lemma lookup_stamped_other (now k : string) (d : dict) :
  k <> "timestamp" -> lookup k (stamped now d) = lookup k d.
Proof.
  intros Hk. unfold stamped. rewrite lookup_dict_set.
  destruct (String.eqb_spec "timestamp" k); [congruence | reflexivity].
Qed.

Lemma lookup_merged (now : string) (lead d : dict) :
  NoDup (keys d) ->
  lookup "timestamp" (dict_update lead (stamped now d)) = Some (PStr now)
  /\ (forall k v, In (k, v) d -> k <> "timestamp" ->
                  lookup k (dict_update lead (stamped now d)) = Some v)
  /\ (forall k, ~ In k (keys d) -> k <> "timestamp" ->
                lookup k (dict_update lead (stamped now d)) = lookup k lead).
Proof.
  intros Hnd. pose proof (keys_stamped_NoDup now d Hnd) as Hnd'.
  split; [|split].
  - apply lookup_dict_update_present; [exact Hnd'|].
    apply lookup_In, lookup_stamped_timestamp.
  - intros k v Hin Hk. apply lookup_dict_update_present; [exact Hnd'|].
    apply lookup_In. rewrite lookup_stamped_other by exact Hk.
    apply lookup_distinct; [now apply distinct_NoDup | exact Hin].
  - intros k Hout Hk. apply lookup_dict_update_absent.
    rewrite <- lookup_None in Hout |- *.
    now rewrite lookup_stamped_other.
Qed.

(** C7.  A call with an empty record, or any other false value, leaves the
    registry as it is.  A call with a non-empty record either appends the
    stamped record or rewrites one record and leaves the others as they
    are; in the rewritten record [timestamp] holds the time of the call,
    the incoming fields hold the incoming values, and every other field
    keeps its value. *)
Theorem update_lead_info_frame :
  (forall now leads, update_lead_info now (PDict []) leads = Returns leads)
  /\ (forall now v leads,
         truthy v = false -> update_lead_info now v leads = Returns leads)
  /\ (forall now d leads,
         d <> [] ->
         well_formed (PDict d) = true ->
         lookup "timestamp" (stamped now d) = Some (PStr now)
         /\ (update_lead_info now (PDict d) leads
             = Returns (leads ++ [stamped now d])%list
             \/ exists l1 lead l2,
                 leads = (l1 ++ lead :: l2)%list
                 /\ update_lead_info now (PDict d) leads
                    = Returns
                        (l1 ++ dict_update lead (stamped now d) :: l2)%list
                 /\ lookup "timestamp" (dict_update lead (stamped now d))
                    = Some (PStr now)
                 /\ (forall k v,
                        In (k, v) d -> k <> "timestamp" ->
                        lookup k (dict_update lead (stamped now d)) = Some v)
                 /\ (forall k,
                        ~ In k (keys d) -> k <> "timestamp" ->
                        lookup k (dict_update lead (stamped now d))
                        = lookup k lead))).
Proof.
  split; [|split].
  - reflexivity.
  - exact update_lead_info_falsy.
  - intros now d leads Hd Hwf. split; [apply lookup_stamped_timestamp|].
    apply well_formed_dict in Hwf as [Hnd _].
    rewrite update_lead_info_dict by exact Hd.
    destruct (truthy (get d "email")); [|now left].
    destruct (scan_leads (stamped now d) leads) as [merged|] eqn:Hscan;
      [|now left].
    apply scan_leads_some in Hscan as (l1 & lead & l2 & -> & -> & _ & _).
    right. exists l1, lead, l2.
    split; [reflexivity|]. split; [reflexivity|].
    now apply lookup_merged.
Qed.

Lemma update_lead_info_frame_witness :
  update_lead_info "T4" (PInt 0) example_registry = Returns example_registry
  /\ lookup "timestamp" (stamped "T4" [("email", PStr "a@x.com")])
     = Some (PStr "T4")
  /\ (update_lead_info "T4" (PDict [("email", PStr "a@x.com")])
        example_registry
      = Returns (example_registry
                 ++ [stamped "T4" [("email", PStr "a@x.com")]])%list
      \/ exists l1 lead l2,
          example_registry = (l1 ++ lead :: l2)%list
          /\ update_lead_info "T4" (PDict [("email", PStr "a@x.com")])
               example_registry
             = Returns
                 (l1 ++ dict_update lead
                          (stamped "T4" [("email", PStr "a@x.com")])
                     :: l2)%list
          /\ lookup "timestamp"
               (dict_update lead (stamped "T4" [("email", PStr "a@x.com")]))
             = Some (PStr "T4")
          /\ (forall k v,
                 In (k, v) [("email", PStr "a@x.com")] -> k <> "timestamp" ->
                 lookup k
                   (dict_update lead
                      (stamped "T4" [("email", PStr "a@x.com")]))
                 = Some v)
          /\ (forall k,
                 ~ In k (keys [("email", PStr "a@x.com")]) ->
                 k <> "timestamp" ->
                 lookup k
                   (dict_update lead
                      (stamped "T4" [("email", PStr "a@x.com")]))
                 = lookup k lead)).
Proof.
  destruct update_lead_info_frame as (_ & Hfalse & Hdict).
  split.
  - apply Hfalse. reflexivity.
  - apply Hdict; [discriminate | reflexivity].
Defined.

(* ================================================================== *)
(** * Extraction followed by the merge                                 *)
(* ================================================================== *)

(** C5.  The pipeline raises on a reply whose fenced text is a JSON array:
    [extract_lead_data] returns the list, which is not a record, and the
    assignment of line 67 is a [TypeError]. *)
Theorem extract_and_update_raises_on_array
    (json_loads : string -> result pyval) (now : string)
    (leads : list dict) :
  json_loads "[1]" = Returns (PList [PInt 1]) ->
  fst (extract_lead_data json_loads "```json [1] ```") = PList [PInt 1]
  /\ extract_and_update json_loads now "```json [1] ```" leads
     = Raises "TypeError".
Proof.
  intros Hload.
  assert (extract_lead_data json_loads "```json [1] ```"
          = (PList [PInt 1], [])) as Hextract.
  { change "```json [1] ```" with ("" ++ fence_open ++ " [1] " ++ fence_close ++ "").
    rewrite extract_first_block.
    - unfold block_outcome. change (strip " [1] ") with "[1]".
      now rewrite Hload.
    - apply first_at_index_of. reflexivity.
    - apply first_at_index_of. reflexivity. }
  unfold extract_and_update. rewrite Hextract. split; reflexivity.
Qed.

Lemma extract_and_update_raises_on_array_witness :
  fst (extract_lead_data JsonReader.json_reader "```json [1] ```")
  = PList [PInt 1]
  /\ extract_and_update JsonReader.json_reader "T1" "```json [1] ```" []
     = Raises "TypeError".
Proof.
  apply extract_and_update_raises_on_array. reflexivity.
Defined.

Lemma extract_and_update_returns (json_loads : string -> result pyval)
    (now response : string) (leads : list dict) :
  (exists d, fst (extract_lead_data json_loads response) = PDict d) ->
  exists leads', extract_and_update json_loads now response leads
                 = Returns leads'.
Proof.
  intros [d Hd]. unfold extract_and_update. rewrite Hd.
  destruct d as [|kv d]; [now exists leads|].
  rewrite update_lead_info_dict by discriminate. eauto.
Qed.

(* ================================================================== *)
(** * The example registry                                             *)
(* ================================================================== *)

Lemma example_registry_reachable : reachable example_registry.
Proof.
  apply (reachable_update "T3"
           (PDict [("email", PStr "a@x.com"); ("company", PStr "Acme")])
           [ [("email", PStr "a@x.com"); ("lead_quality", PStr "warm");
              ("timestamp", PStr "T1")];
             [("name", PStr "Bo"); ("timestamp", PStr "T2")] ]);
    [|reflexivity|reflexivity].
  apply (reachable_update "T2" (PDict [("name", PStr "Bo")])
           [ [("email", PStr "a@x.com"); ("lead_quality", PStr "warm");
              ("timestamp", PStr "T1")] ]);
    [|reflexivity|reflexivity].
  apply (reachable_update "T1"
           (PDict [("email", PStr "a@x.com"); ("lead_quality", PStr "warm")])
           []);
    [|reflexivity|reflexivity].
  constructor.
Qed.

Lemma registry_invariants_witness :
  (unique_emails example_registry /\ shared_only_nan example_registry)
  /\ (exists lead',
         nth_error example_registry 0 = Some lead' /\
         (lead' = [("email", PStr "a@x.com"); ("lead_quality", PStr "warm");
                   ("timestamp", PStr "T1")]
          \/ exists d,
              PDict [("email", PStr "a@x.com"); ("company", PStr "Acme")]
              = PDict d
              /\ same_email
                   [("email", PStr "a@x.com"); ("lead_quality", PStr "warm");
                    ("timestamp", PStr "T1")] d = true
              /\ lead' = dict_update
                           [("email", PStr "a@x.com");
                            ("lead_quality", PStr "warm");
                            ("timestamp", PStr "T1")]
                           (stamped "T3" d)))
  /\ update_lead_info "T2" (PDict [("name", PStr "Bo")])
       [ [("email", PStr "a@x.com"); ("lead_quality", PStr "warm");
          ("timestamp", PStr "T1")] ]
     = Returns
         ([ [("email", PStr "a@x.com"); ("lead_quality", PStr "warm");
             ("timestamp", PStr "T1")] ]
          ++ [stamped "T2" [("name", PStr "Bo")]])%list.
Proof.
  destruct registry_invariants as (Hunique & Hindex & Happend).
  split; [|split].
  - apply Hunique. exact example_registry_reachable.
  - apply (Hindex "T3"
             (PDict [("email", PStr "a@x.com"); ("company", PStr "Acme")])
             [ [("email", PStr "a@x.com"); ("lead_quality", PStr "warm");
                ("timestamp", PStr "T1")];
               [("name", PStr "Bo"); ("timestamp", PStr "T2")] ]);
      reflexivity.
  - apply Happend; [discriminate | reflexivity].
Defined.

Lemma update_lead_info_twice_witness :
  exists leads1 leads2,
    update_lead_info "T4" (PDict [("email", PStr "a@x.com")]) example_registry
    = Returns leads1 /\
    update_lead_info "T5" (PDict [("email", PStr "a@x.com")]) leads1
    = Returns leads2 /\
    (reachable example_registry ->
     unique_emails leads2 /\ shared_only_nan leads2) /\
    List.length leads2 = List.length leads1 /\
    map strip_timestamp leads2 = map strip_timestamp leads1.
Proof.
  exact (update_lead_info_twice "T4" "T5" [("email", PStr "a@x.com")]
           example_registry ltac:(discriminate) eq_refl).
Defined.

(* ================================================================== *)
(** * Export                                                           *)
(* ================================================================== *)



(** ** The reader undoes the writer *)

Section CsvFacts.

Variable quote_cr : bool.










End CsvFacts.

(** ** The exported file *)

Section ExportFacts.

Variable cell_text : list (option pyval) -> option pyval -> string.
Variable quote_cr : bool.




End ExportFacts.





(* ================================================================== *)
(** * The extractor on every reply                                     *)
(* ================================================================== *)

Lemma index_of_split (sub s : string) (i : nat) :
  index_of sub s = Some i ->
  exists pre post, s = pre ++ sub ++ post /\ String.length pre = i.
Proof.
  intros H. apply index_of_occurs in H as [H _]. exact H.
Qed.

(** The three ways a reply can look to [extract_lead_data]. *)
Lemma extract_lead_data_trichotomy (json_loads : string -> result pyval)
    (response : string) :
  (~ occurs fence_open response
   /\ extract_lead_data json_loads response = (PDict [], []))
  \/ (exists pre tail,
         response = pre ++ fence_open ++ tail
         /\ first_at fence_open response (String.length pre)
         /\ ~ occurs fence_close tail
         /\ extract_lead_data json_loads response = (PDict [], []))
  \/ (exists pre body rest,
         response = pre ++ fence_open ++ body ++ fence_close ++ rest
         /\ first_at fence_open response (String.length pre)
         /\ first_at fence_close (body ++ fence_close ++ rest)
                     (String.length body)
         /\ extract_lead_data json_loads response
            = block_outcome json_loads body).
Proof.
  destruct (index_of fence_open response) as [i|] eqn:Eopen.
  - right.
    destruct (index_of_split _ _ _ Eopen) as (pre & tail & -> & <-).
    apply first_at_index_of in Eopen.
    destruct (index_of fence_close tail) as [j|] eqn:Eclose.
    + right.
      destruct (index_of_split _ _ _ Eclose) as (body & rest & -> & <-).
      apply first_at_index_of in Eclose.
      exists pre, body, rest. repeat split; try assumption.
      * apply Eopen.
      * apply Eopen.
      * apply Eclose.
      * apply Eclose.
      * now apply extract_first_block.
    + left. apply index_of_not_occurs in Eclose.
      exists pre, tail. repeat split; try assumption.
      * apply Eopen.
      * apply Eopen.
      * now apply extract_no_close.
  - left. apply index_of_not_occurs in Eopen. split; [exact Eopen|].
    now apply extract_no_open.
Qed.

(** X1.  Every reply falls in one of three cases: it holds no "```json" and
    the extractor returns the empty record; its first "```json" has no "```"
    after it and the extractor returns the empty record; or the text between
    its first "```json" and the first "```" after it decides the outcome. *)
Theorem extract_lead_data_cases (json_loads : string -> result pyval)
    (response : string) :
  (~ occurs fence_open response
   /\ extract_lead_data json_loads response = (PDict [], []))
  \/ (exists pre tail,
         response = pre ++ fence_open ++ tail
         /\ first_at fence_open response (String.length pre)
         /\ ~ occurs fence_close tail
         /\ extract_lead_data json_loads response = (PDict [], []))
  \/ (exists pre body rest,
         response = pre ++ fence_open ++ body ++ fence_close ++ rest
         /\ first_at fence_open response (String.length pre)
         /\ first_at fence_close (body ++ fence_close ++ rest)
                     (String.length body)
         /\ extract_lead_data json_loads response
            = block_outcome json_loads body).
Proof. apply extract_lead_data_trichotomy. Qed.

(** X2.  The extractor shows at most one error, and only for a reply that
    holds "```json"; the record returned with an error is the empty one. *)
Theorem extract_lead_data_error (json_loads : string -> result pyval)
    (response : string) :
  snd (extract_lead_data json_loads response) = []
  \/ (occurs fence_open response
      /\ fst (extract_lead_data json_loads response) = PDict []
      /\ exists e,
          snd (extract_lead_data json_loads response)
          = [StError ("Error extracting lead data: " ++ e)]).
Proof.
  destruct (extract_lead_data_trichotomy json_loads response)
    as [[_ ->]|[(pre & tail & _ & _ & _ & ->)
               |(pre & body & rest & Hr & _ & _ & ->)]];
    try (now left).
  unfold block_outcome. destruct (json_loads (strip body)) as [v|e].
  - now left.
  - right. split; [|split; [reflexivity | now exists e]].
    exists (String.length pre), pre, (body ++ fence_close ++ rest). auto.
Qed.

(** X3.  On a reply that holds no "```json", or whose first "```json" has no
    "```" after it, or whose fenced text [json.loads] rejects, extraction
    followed by the merge returns and leaves the registry as it was. *)
Theorem extract_and_update_without_block
    (json_loads : string -> result pyval) (now response : string)
    (leads : list dict) :
  (~ occurs fence_open response
   \/ (exists pre tail,
          response = pre ++ fence_open ++ tail
          /\ first_at fence_open response (String.length pre)
          /\ ~ occurs fence_close tail)
   \/ (exists pre body rest e,
          response = pre ++ fence_open ++ body ++ fence_close ++ rest
          /\ first_at fence_open response (String.length pre)
          /\ first_at fence_close (body ++ fence_close ++ rest)
                      (String.length body)
          /\ json_loads (strip body) = Raises e)) ->
  extract_and_update json_loads now response leads = Returns leads.
Proof.
  unfold extract_and_update.
  intros [H|[(pre & tail & -> & Hopen & Hclose)
            |(pre & body & rest & e & -> & Hopen & Hclose & Hload)]].
  - now rewrite extract_no_open.
  - now rewrite extract_no_close.
  - rewrite extract_first_block by assumption.
    unfold block_outcome. now rewrite Hload.
Qed.

Lemma extract_and_update_without_block_witness :
  extract_and_update JsonReader.json_reader "T1" "Tell me more."
    example_registry
  = Returns example_registry.
Proof.
  apply extract_and_update_without_block.
  left. apply index_of_not_occurs. reflexivity.
Defined.

(* ================================================================== *)
(** * More on [update_lead_info]                                       *)
(* ================================================================== *)

(** X4.  [update_lead_info] raises exactly when its argument is true and is
    no dict, and the exception is then a [TypeError]. *)
Theorem update_lead_info_raises_iff (now : string) (v : pyval)
    (leads : list dict) (e : string) :
  update_lead_info now v leads = Raises e <->
  e = "TypeError" /\ truthy v = true /\ forall d, v <> PDict d.
Proof.
  split.
  - unfold update_lead_info. destruct (truthy v) eqn:Hv; simpl;
      [|discriminate].
    destruct v as [ | | | | | | d ]; try (intros [= <-]; repeat split;
      discriminate).
    destruct (truthy (get (dict_set "timestamp" (PStr now) d) "email"));
      [|discriminate].
    destruct (scan_leads (dict_set "timestamp" (PStr now) d) leads);
      discriminate.
  - intros (-> & Hv & Hd). unfold update_lead_info. rewrite Hv. simpl.
    destruct v as [ | | | | | | d ]; try reflexivity.
    now destruct (Hd d).
Qed.

Lemma update_lead_info_shape (now : string) (v : pyval)
    (leads leads' : list dict) :
  update_lead_info now v leads = Returns leads' ->
  (truthy v = false /\ leads' = leads)
  \/ (exists d, v = PDict d /\ d <> []
                /\ leads' = (leads ++ [stamped now d])%list)
  \/ (exists d l1 lead l2,
         v = PDict d /\ d <> []
         /\ truthy (get d "email") = true
         /\ Forall (fun x => same_email x d = false) l1
         /\ same_email lead d = true
         /\ leads = (l1 ++ lead :: l2)%list
         /\ leads' = (l1 ++ dict_update lead (stamped now d) :: l2)%list).
Proof.
  intros Hrun.
  destruct (update_lead_info_returns _ _ _ _ Hrun)
    as [[Hv ->]|(d & -> & Hd)]; [now left|].
  rewrite update_lead_info_dict in Hrun by exact Hd. right.
  destruct (truthy (get d "email")) eqn:He.
  - destruct (scan_leads (stamped now d) leads) as [merged|] eqn:Hscan;
      injection Hrun as <-.
    + right. apply scan_leads_some in Hscan
        as (l1 & lead & l2 & -> & -> & Hl1 & Hlead).
      exists d, l1, lead, l2. rewrite same_email_stamped in Hlead.
      repeat split; try assumption; try reflexivity.
      eapply Forall_impl; [|exact Hl1]. intros x Hx. cbv beta in Hx.
      now rewrite same_email_stamped in Hx.
    + left. now exists d.
  - injection Hrun as <-. left. now exists d.
Qed.

(** X5.  A call that returns never removes a record and adds one at
    most. *)
Theorem update_lead_info_length (now : string) (v : pyval)
    (leads leads' : list dict) :
  update_lead_info now v leads = Returns leads' ->
  (List.length leads <= List.length leads' <= S (List.length leads))%nat.
Proof.
  intros Hrun.
  destruct (update_lead_info_shape _ _ _ _ Hrun)
    as [[_ ->]|[(d & _ & _ & ->)
               |(d & l1 & lead & l2 & _ & _ & _ & _ & _ & -> & ->)]].
  - lia.
  - rewrite length_app. simpl. lia.
  - rewrite !length_app. simpl. lia.
Qed.

Lemma update_lead_info_length_witness :
  (List.length example_registry
   <= List.length (example_registry ++ [stamped "T4" [("name", PStr "Cy")]])
   <= S (List.length example_registry))%nat.
Proof.
  apply (update_lead_info_length "T4" (PDict [("name", PStr "Cy")])).
  reflexivity.
Defined.

Lemma filter_fresh_keys (k : string) (ks l : list string) :
  ~ In k l ->
  filter (fun x => negb (existsb (String.eqb x) (ks ++ [k]))) l
  = filter (fun x => negb (existsb (String.eqb x) ks)) l.
Proof.
  intros Hk. apply filter_ext_in. intros x Hx. f_equal.
  rewrite existsb_app. simpl. rewrite orb_false_r.
  destruct (String.eqb_spec x k) as [->|_]; [contradiction|].
  apply orb_false_r.
Qed.

(** [d.update(o)] keeps the keys of [d] in their order and puts the new keys
    of [o] after them, in the order of [o]. *)
Lemma keys_dict_update (o d : dict) :
  NoDup (keys o) ->
  keys (dict_update d o)
  = (keys d
     ++ filter (fun k => negb (existsb (String.eqb k) (keys d))) (keys o))%list.
Proof.
  revert d; induction o as [|[k v] o IH]; intros d Hnd.
  - simpl. now rewrite app_nil_r.
  - inversion Hnd as [|? ? Hk Hnd']; subst.
    rewrite dict_update_cons, IH by exact Hnd'.
    rewrite keys_dict_set. cbn [keys map fst filter].
    fold (keys o). fold (keys d).
    destruct (existsb (String.eqb k) (keys d)) eqn:E; cbn [negb].
    + reflexivity.
    + rewrite <- app_assoc. cbn [app]. f_equal. f_equal.
      now apply filter_fresh_keys.
Qed.

(** X6.  A merge loses no field and moves none: the merged record lists the
    fields of the stored record in their order, then the fields that only
    the incoming record has, [timestamp] among them if it is new. *)
Theorem update_lead_info_merge_fields (now : string) (d : dict)
    (l1 : list dict) (lead : dict) (l2 : list dict) :
  d <> [] ->
  well_formed (PDict d) = true ->
  truthy (get d "email") = true ->
  Forall (fun x => same_email x d = false) l1 ->
  same_email lead d = true ->
  exists merged,
    update_lead_info now (PDict d) (l1 ++ lead :: l2)%list
    = Returns (l1 ++ merged :: l2)%list
    /\ keys merged
       = (keys lead
          ++ filter (fun k => negb (existsb (String.eqb k) (keys lead)))
               (keys (stamped now d)))%list.
Proof.
  intros Hd Hwf He Hl1 Hlead.
  exists (dict_update lead (stamped now d)). split.
  - now apply update_lead_info_merge.
  - apply keys_dict_update, keys_stamped_NoDup.
    now apply well_formed_dict.
Qed.

Lemma update_lead_info_merge_fields_witness :
  exists merged,
    update_lead_info "T4"
      (PDict [("company", PStr "Acme"); ("email", PStr "a@x.com")])
      ([] ++ [("email", PStr "a@x.com"); ("lead_quality", PStr "warm")]
          :: [])%list
    = Returns ([] ++ merged :: [])%list
    /\ keys merged
       = (keys [("email", PStr "a@x.com"); ("lead_quality", PStr "warm")]
          ++ filter
               (fun k =>
                  negb (existsb (String.eqb k)
                          (keys [("email", PStr "a@x.com");
                                 ("lead_quality", PStr "warm")])))
               (keys (stamped "T4"
                        [("company", PStr "Acme");
                         ("email", PStr "a@x.com")])))%list.
Proof.
  apply update_lead_info_merge_fields;
    [discriminate | reflexivity | reflexivity | constructor | reflexivity].
Defined.

Lemma update_lead_info_keeps_timestamps (now : string) (v : pyval)
    (leads leads' : list dict) :
  well_formed v = true ->
  Forall has_timestamp leads ->
  update_lead_info now v leads = Returns leads' ->
  Forall has_timestamp leads'.
Proof.
  intros Hwf Hleads Hrun.
  destruct (update_lead_info_shape _ _ _ _ Hrun)
    as [[_ ->]|[(d & -> & _ & ->)
               |(d & l1 & lead & l2 & -> & _ & _ & _ & _ & -> & ->)]].
  - exact Hleads.
  - apply Forall_app. split; [exact Hleads|]. constructor; [|constructor].
    exists now. apply lookup_stamped_timestamp.
  - apply Forall_app in Hleads as [H1 H2]. inversion H2; subst.
    apply Forall_app. split; [exact H1|]. constructor; [|assumption].
    exists now.
    exact (proj1 (lookup_merged now lead d (proj1 (well_formed_dict d Hwf)))).
Qed.

Lemma reachable_timestamps (leads : list dict) :
  reachable leads -> Forall has_timestamp leads.
Proof.
  induction 1 as [|now v leads leads' _ IH Hwf Hrun]; [constructor|].
  exact (update_lead_info_keeps_timestamps now v leads leads' Hwf IH Hrun).
Qed.

(** X7.  Every record of a registry that the program built carries a
    [timestamp], and it is a string. *)
Theorem reachable_leads_have_timestamp (leads : list dict) :
  reachable leads -> Forall has_timestamp leads.
Proof. apply reachable_timestamps. Qed.

Lemma reachable_leads_have_timestamp_witness :
  Forall has_timestamp example_registry.
Proof.
  apply reachable_leads_have_timestamp. exact example_registry_reachable.
Defined.

(** X8.  After a call with a non-empty record, the registry holds a record
    with every incoming field at its incoming value and the time of the call
    as [timestamp]. *)
Theorem update_lead_info_stores_record (now : string) (d : dict)
    (leads : list dict) :
  d <> [] ->
  well_formed (PDict d) = true ->
  exists leads' lead',
    update_lead_info now (PDict d) leads = Returns leads'
    /\ In lead' leads'
    /\ lookup "timestamp" lead' = Some (PStr now)
    /\ forall k v, In (k, v) d -> k <> "timestamp" ->
                   lookup k lead' = Some v.
Proof.
  intros Hd Hwf. pose proof (proj1 (well_formed_dict d Hwf)) as Hnd.
  destruct (update_lead_info now (PDict d) leads) as [leads'|e] eqn:Hrun.
  2:{ rewrite update_lead_info_dict in Hrun by exact Hd. discriminate. }
  exists leads'.
  destruct (update_lead_info_shape _ _ _ _ Hrun)
    as [[Hv _]|[(d' & [= <-] & _ & ->)
               |(d' & l1 & lead & l2 & [= <-] & _ & _ & _ & _ & -> & ->)]].
  - destruct d; [congruence | discriminate].
  - exists (stamped now d). split; [reflexivity|]. split.
    + apply in_or_app. right. now left.
    + split; [apply lookup_stamped_timestamp|].
      intros k v Hin Hk. rewrite lookup_stamped_other by exact Hk.
      apply lookup_distinct; [now apply distinct_NoDup | exact Hin].
  - exists (dict_update lead (stamped now d)). split; [reflexivity|]. split.
    + apply in_or_app. right. now left.
    + destruct (lookup_merged now lead d Hnd) as (A & B & _). auto.
Qed.

Lemma update_lead_info_stores_record_witness :
  exists leads' lead',
    update_lead_info "T4" (PDict [("email", PStr "a@x.com")]) example_registry
    = Returns leads'
    /\ In lead' leads'
    /\ lookup "timestamp" lead' = Some (PStr "T4")
    /\ forall k v, In (k, v) [("email", PStr "a@x.com")] ->
                   k <> "timestamp" -> lookup k lead' = Some v.
Proof.
  apply update_lead_info_stores_record; [discriminate | reflexivity].
Defined.

(* ================================================================== *)
(** * The counters of the sidebar                                      *)
(* ================================================================== *)

Lemma count_quality_cons (q : string) (lead : dict) (leads : list dict) :
  count_quality q (lead :: leads)
  = (counts_as q lead + count_quality q leads)%nat.
Proof.
  unfold count_quality, counts_as. cbn [filter].
  now destruct (py_eq (get lead "lead_quality") (PStr q)).
Qed.

Lemma count_quality_app (q : string) (l1 l2 : list dict) :
  count_quality q (l1 ++ l2)%list
  = (count_quality q l1 + count_quality q l2)%nat.
Proof.
  induction l1 as [|x l1 IH]; [reflexivity|].
  cbn [app]. rewrite !count_quality_cons, IH. lia.
Qed.

Lemma py_eq_str_r (x : pyval) (q : string) :
  py_eq x (PStr q) = true <-> x = PStr q.
Proof.
  split.
  - destruct x; try discriminate. simpl. intros H.
    apply String.eqb_eq in H. now subst.
  - intros ->. simpl. apply String.eqb_refl.
Qed.

Lemma counts_as_once (q1 q2 : string) (lead : dict) :
  q1 <> q2 -> (counts_as q1 lead + counts_as q2 lead <= 1)%nat.
Proof.
  intros Hq. unfold counts_as.
  destruct (py_eq (get lead "lead_quality") (PStr q1)) eqn:E1,
           (py_eq (get lead "lead_quality") (PStr q2)) eqn:E2; try lia.
  apply py_eq_str_r in E1, E2. congruence.
Qed.

(** X9.  A lead is counted by one of the three counters at most: hot, warm
    and cold leads together are no more than the records of the registry. *)
Theorem counters_count_each_lead_once (leads : list dict) :
  (count_quality "hot" leads + count_quality "warm" leads
   + count_quality "cold" leads <= List.length leads)%nat.
Proof.
  induction leads as [|lead leads IH]; [reflexivity|].
  rewrite !count_quality_cons. cbn [List.length].
  pose proof (counts_as_once "hot" "warm" lead ltac:(discriminate)).
  pose proof (counts_as_once "hot" "cold" lead ltac:(discriminate)).
  pose proof (counts_as_once "warm" "cold" lead ltac:(discriminate)).
  lia.
Qed.

Lemma counts_as_stamped (q now : string) (d : dict) :
  counts_as q (stamped now d) = counts_as q d.
Proof.
  unfold counts_as. now rewrite get_stamped_other by discriminate.
Qed.

(** X10.  A call with a record that has no [lead_quality] field leaves every
    counter as it was. *)
Theorem counters_unchanged_without_quality (now q : string) (d : dict)
    (leads leads' : list dict) :
  lookup "lead_quality" d = None ->
  update_lead_info now (PDict d) leads = Returns leads' ->
  count_quality q leads' = count_quality q leads.
Proof.
  intros Hq Hrun.
  assert (counts_as q d = 0%nat) as Hd
      by (unfold counts_as, get; now rewrite Hq).
  destruct (update_lead_info_shape _ _ _ _ Hrun)
    as [[_ ->]|[(d' & [= <-] & _ & ->)
               |(d' & l1 & lead & l2 & [= <-] & _ & _ & _ & _ & -> & ->)]].
  - reflexivity.
  - rewrite count_quality_app, count_quality_cons, counts_as_stamped, Hd.
    cbn. lia.
  - rewrite !count_quality_app, !count_quality_cons. f_equal. f_equal.
    unfold counts_as, get. rewrite lookup_dict_update_absent; [reflexivity|].
    apply lookup_None. now rewrite lookup_stamped_other by discriminate.
Qed.

Lemma counters_unchanged_without_quality_witness :
  count_quality "warm"
    [ [("email", PStr "a@x.com"); ("lead_quality", PStr "warm");
       ("timestamp", PStr "T3"); ("company", PStr "Acme")];
      [("name", PStr "Bo"); ("timestamp", PStr "T2")] ]
  = count_quality "warm"
      [ [("email", PStr "a@x.com"); ("lead_quality", PStr "warm");
         ("timestamp", PStr "T1")];
        [("name", PStr "Bo"); ("timestamp", PStr "T2")] ].
Proof.
  apply (counters_unchanged_without_quality "T3" "warm"
           [("email", PStr "a@x.com"); ("company", PStr "Acme")]);
    reflexivity.
Defined.

Lemma update_lead_info_no_match (now : string) (d : dict)
    (leads : list dict) :
  d <> [] ->
  Forall (fun x => same_email x d = false) leads ->
  update_lead_info now (PDict d) leads
  = Returns (leads ++ [stamped now d])%list.
Proof.
  intros Hd Hleads. rewrite update_lead_info_dict by exact Hd.
  destruct (truthy (get d "email")); [|reflexivity].
  assert (scan_leads (stamped now d) leads = None) as ->; [|reflexivity].
  apply scan_leads_none. eapply Forall_impl; [|exact Hleads].
  intros x Hx. cbv beta in Hx. now rewrite same_email_stamped.
Qed.

(** X11.  A non-empty record whose email no stored record has is appended
    even when the email is not empty, and it adds one to the counter of its
    own [lead_quality] and nothing to the others. *)
Theorem counters_after_new_lead (now q : string) (d : dict)
    (leads : list dict) :
  d <> [] ->
  Forall (fun x => same_email x d = false) leads ->
  update_lead_info now (PDict d) leads
  = Returns (leads ++ [stamped now d])%list
  /\ count_quality q (leads ++ [stamped now d])%list
     = (count_quality q leads + counts_as q d)%nat.
Proof.
  intros Hd Hleads. split; [now apply update_lead_info_no_match|].
  rewrite count_quality_app, count_quality_cons, counts_as_stamped.
  cbn. lia.
Qed.

Lemma counters_after_new_lead_witness :
  update_lead_info "T4"
    (PDict [("email", PStr "c@x.com"); ("lead_quality", PStr "hot")])
    example_registry
  = Returns
      (example_registry
       ++ [stamped "T4"
             [("email", PStr "c@x.com"); ("lead_quality", PStr "hot")]])%list
  /\ count_quality "hot"
       (example_registry
        ++ [stamped "T4"
              [("email", PStr "c@x.com"); ("lead_quality", PStr "hot")]])%list
     = (count_quality "hot" example_registry
        + counts_as "hot"
            [("email", PStr "c@x.com"); ("lead_quality", PStr "hot")])%nat.
Proof.
  apply counters_after_new_lead; [discriminate|].
  repeat constructor.
Defined.

(** X12.  A merge moves the stored lead from the counter of its old
    [lead_quality] to the counter of the incoming one and touches no other
    lead. *)
Theorem counters_after_merge (now q : string) (d : dict)
    (l1 : list dict) (lead : dict) (l2 : list dict) :
  d <> [] ->
  well_formed (PDict d) = true ->
  truthy (get d "email") = true ->
  Forall (fun x => same_email x d = false) l1 ->
  same_email lead d = true ->
  exists merged,
    update_lead_info now (PDict d) (l1 ++ lead :: l2)%list
    = Returns (l1 ++ merged :: l2)%list
    /\ get merged "lead_quality"
       = match lookup "lead_quality" d with
         | Some incoming => incoming
         | None => get lead "lead_quality"
         end
    /\ (count_quality q (l1 ++ merged :: l2)%list + counts_as q lead
        = count_quality q (l1 ++ lead :: l2)%list + counts_as q merged)%nat.
Proof.
  intros Hd Hwf He Hl1 Hlead.
  exists (dict_update lead (stamped now d)). split; [|split].
  - now apply update_lead_info_merge.
  - pose proof (proj1 (well_formed_dict d Hwf)) as Hnd.
    destruct (lookup_merged now lead d Hnd) as (_ & Hin & Hout).
    unfold get at 1.
    destruct (lookup "lead_quality" d) as [x|] eqn:E.
    + now rewrite (Hin _ _ (lookup_In _ _ _ E)) by discriminate.
    + rewrite Hout; [reflexivity | now apply lookup_None | discriminate].
  - rewrite !count_quality_app, !count_quality_cons. lia.
Qed.

Lemma counters_after_merge_witness :
  exists merged,
    update_lead_info "T4"
      (PDict [("email", PStr "a@x.com"); ("lead_quality", PStr "hot")])
      ([] ++ [("email", PStr "a@x.com"); ("lead_quality", PStr "warm")]
          :: [[("name", PStr "Bo")]])%list
    = Returns ([] ++ merged :: [[("name", PStr "Bo")]])%list
    /\ get merged "lead_quality" = PStr "hot"
    /\ (count_quality "hot" ([] ++ merged :: [[("name", PStr "Bo")]])%list
        + counts_as "hot"
            [("email", PStr "a@x.com"); ("lead_quality", PStr "warm")]
        = count_quality "hot"
            ([] ++ [("email", PStr "a@x.com"); ("lead_quality", PStr "warm")]
                :: [[("name", PStr "Bo")]])%list
          + counts_as "hot" merged)%nat.
Proof.
  apply (counters_after_merge "T4" "hot"
           [("email", PStr "a@x.com"); ("lead_quality", PStr "hot")]);
    [discriminate | reflexivity | reflexivity | constructor | reflexivity].
Defined.

(* ================================================================== *)
(** * The history                                                      *)
(* ================================================================== *)

Lemma cut_at_fence_prefix (s : string) :
  exists rest, s = cut_at_fence s ++ rest.
Proof.
  unfold cut_at_fence. destruct (index_of fence_open s) as [i|].
  - exists (drop i s). symmetry. apply take_drop.
  - exists "". now rewrite append_empty_r.
Qed.

Lemma cut_at_fence_no_fence (s : string) :
  ~ occurs fence_open (cut_at_fence s).
Proof.
  unfold cut_at_fence. destruct (index_of fence_open s) as [i|] eqn:E.
  - destruct (index_of_split _ _ _ E) as (pre & tail & -> & <-).
    rewrite take_append. apply first_at_index_of in E.
    now apply no_fence_before_first with (tail := tail).
  - now apply index_of_not_occurs.
Qed.

Lemma history_content_role (m : message) :
  history_content m
  = if (role m =? "assistant")%string then cut_at_fence (content m)
    else content m.
Proof.
  destruct m as [r c]. cbn [role content].
  destruct (String.eqb_spec r "assistant") as [->|Hr].
  - apply history_content_cut.
  - unfold history_content. cbn [role content].
    apply String.eqb_neq in Hr. now rewrite Hr.
Qed.

(** X13.  The history shows of every message a prefix of its content: all
    of it for a message of the user (whatever it holds), and for a message
    of the assistant a text in which "```json" does not occur. *)
Theorem history_content_shows_prefix (m : message) :
  (exists rest, content m = history_content m ++ rest)
  /\ (role m <> "assistant" -> history_content m = content m)
  /\ (role m = "assistant" -> ~ occurs fence_open (history_content m)).
Proof.
  rewrite history_content_role.
  destruct (String.eqb_spec (role m) "assistant") as [Hr|Hr].
  - split; [apply cut_at_fence_prefix|]. split; [congruence|].
    intros _. apply cut_at_fence_no_fence.
  - split; [exists ""; now rewrite append_empty_r|].
    split; [reflexivity | congruence].
Qed.

(* ================================================================== *)
(** * The client                                                       *)
(* ================================================================== *)

Lemma lstrip_fixed (s : string) :
  match s with
  | EmptyString => True
  | String c _ => isspace c = false
  end -> lstrip s = s.
Proof. destruct s as [|c s]; simpl; [reflexivity | now intros ->]. Qed.

Lemma lstrip_head (s : string) :
  match lstrip s with
  | EmptyString => True
  | String c _ => isspace c = false
  end.
Proof.
  induction s as [|c s IH]; simpl; [exact I|].
  destruct (isspace c) eqn:E; [exact IH | exact E].
Qed.

Lemma rstrip_head (s : string) :
  match s with
  | EmptyString => True
  | String c _ => isspace c = false
  end ->
  match rstrip s with
  | EmptyString => s = EmptyString
  | String c _ => isspace c = false
  end.
Proof.
  destruct s as [|c s]; simpl; [reflexivity|]. intros Hc.
  destruct (rstrip s); [rewrite Hc; simpl; exact Hc | exact Hc].
Qed.

Lemma rstrip_cons (c : ascii) (t : string) :
  rstrip (String c t)
  = match rstrip t with
    | EmptyString => if isspace c then EmptyString else String c EmptyString
    | r => String c r
    end.
Proof. reflexivity. Qed.

Lemma rstrip_idempotent (s : string) : rstrip (rstrip s) = rstrip s.
Proof.
  induction s as [|c s IH]; [reflexivity|]. rewrite rstrip_cons.
  destruct (rstrip s) as [|c' r] eqn:E.
  - destruct (isspace c) eqn:Hc; [reflexivity|].
    rewrite rstrip_cons. cbn [rstrip]. now rewrite Hc.
  - rewrite rstrip_cons, IH. reflexivity.
Qed.

(** [strip] of a stripped string changes nothing. *)
Lemma strip_idempotent (s : string) : strip (strip s) = strip s.
Proof.
  unfold strip. rewrite lstrip_fixed; [apply rstrip_idempotent|].
  pose proof (rstrip_head (lstrip s) (lstrip_head s)) as H.
  destruct (rstrip (lstrip s)); [exact I | exact H].
Qed.

Section PageFacts.

Variable client : Type.
Variable new_client : string -> result client.
Variable create_completion : client -> list message -> result string.
Variable json_loads : string -> result pyval.
Variable cell_text : list (option pyval) -> option pyval -> string.
Variable quote_cr : bool.

(** X14.  The blanks around the key do not count: the client is built from
    the stripped key, a key of blanks gives no client and no error, and a
    client is returned only if the library built one from the stripped
    key. *)
Theorem initialize_groq_client_strips_key (key : string) :
  initialize_groq_client client new_client key
  = initialize_groq_client client new_client (strip key)
  /\ (strip key = "" ->
      initialize_groq_client client new_client key = (None, []))
  /\ (forall c,
         fst (initialize_groq_client client new_client key) = Some c ->
         strip key <> "" /\ new_client (strip key) = Returns c).
Proof.
  unfold initialize_groq_client. rewrite strip_idempotent.
  split; [reflexivity|]. split.
  - now intros ->.
  - intros c. destruct (String.eqb_spec (strip key) "") as [E|E]; simpl.
    + discriminate.
    + destruct (new_client (strip key)) as [c'|e]; simpl; [|discriminate].
      now intros [= ->].
Qed.

(** ** One turn of the chat *)

(** The ways a turn can go. *)
Lemma chat_turn_cases (now : string) (prompt : option string) (s s' : session)
    (out : list shown) (raised : option string) :
  chat_turn client new_client create_completion json_loads now prompt s
  = (s', out, raised) ->
  (s' = s /\ out = [] /\ raised = None
   /\ (prompt = None \/ prompt = Some ""))
  \/ (exists p notes,
         prompt = Some p /\ p <> ""
         /\ initialize_groq_client client new_client (session_key s)
            = (None, notes)
         /\ s' = Session (session_key s) (session_leads s)
                   (session_messages s ++ [Message "user" p])%list
         /\ out = (ChatMessage "user" p :: map Notice notes
                   ++ [key_error])%list
         /\ raised = None)
  \/ (exists p c notes1 response notes2 lead_data notes3,
         prompt = Some p /\ p <> ""
         /\ initialize_groq_client client new_client (session_key s)
            = (Some c, notes1)
         /\ get_groq_response client create_completion c
              (session_messages s ++ [Message "user" p])%list
            = (response, notes2)
         /\ extract_lead_data json_loads response = (lead_data, notes3)
         /\ session_key s' = session_key s
         /\ session_messages s'
            = (session_messages s
               ++ [Message "user" p; Message "assistant" response])%list
         /\ ((exists leads',
                 update_lead_info now lead_data (session_leads s)
                 = Returns leads'
                 /\ session_leads s' = leads'
                 /\ out = (ChatMessage "user" p
                           :: map Notice notes1 ++ map Notice notes2
                           ++ map Notice notes3
                           ++ [ChatMessage "assistant"
                                 (cut_at_fence response)])%list
                 /\ raised = None)
             \/ (exists e,
                    update_lead_info now lead_data (session_leads s)
                    = Raises e
                    /\ session_leads s' = session_leads s
                    /\ out = (ChatMessage "user" p
                              :: map Notice notes1 ++ map Notice notes2
                              ++ map Notice notes3)%list
                    /\ raised = Some e))).
Proof.
  unfold chat_turn. destruct prompt as [[|ch p]|].
  - intros [= <- <- <-]. left. auto.
  - cbv iota. assert (String ch p <> "") as Hp by discriminate.
    revert Hp. generalize (String ch p). intros prompt Hp.
    destruct (initialize_groq_client client new_client (session_key s))
      as [[c|] notes1] eqn:Hinit.
    + destruct (get_groq_response client create_completion c
                  (session_messages s ++ [Message "user" prompt])%list)
        as [response notes2] eqn:Hget.
      destruct (extract_lead_data json_loads response)
        as [lead_data notes3] eqn:Hextract.
      rewrite display_response_cut.
      intros H. right. right.
      exists prompt, c, notes1, response, notes2, lead_data, notes3.
      split; [reflexivity|]. split; [exact Hp|].
      split; [reflexivity|]. split; [exact Hget|]. split; [exact Hextract|].
      destruct (update_lead_info now lead_data (session_leads s))
        as [leads'|e]; injection H as <- <- <-;
        cbn [session_key session_messages session_leads];
        rewrite <- !app_assoc; cbn [app];
        (split; [reflexivity|]); (split; [reflexivity|]).
      * left. exists leads'. repeat split.
      * right. exists e. repeat split.
    + intros [= <- <- <-]. right. left. exists prompt, notes1.
      repeat split; try reflexivity. exact Hp.
  - intros [= <- <- <-]. left. auto.
Qed.

(** The messages a turn adds. *)
Lemma chat_turn_messages (now : string) (prompt : option string)
    (s s' : session) (out : list shown) (raised : option string) :
  chat_turn client new_client create_completion json_loads now prompt s
  = (s', out, raised) ->
  session_key s' = session_key s
  /\ exists new,
      session_messages s' = (session_messages s ++ new)%list
      /\ (new = []
          \/ exists p,
              prompt = Some p /\ p <> ""
              /\ (new = [Message "user" p]
                  \/ exists response,
                      new = [Message "user" p;
                             Message "assistant" response])).
Proof.
  intros H. apply chat_turn_cases in H
    as [(-> & _)
       |[(p & notes & -> & Hp & _ & -> & _)
        |(p & c & n1 & response & n2 & ld & n3 & -> & Hp & _ & _ & _
          & Hkey & Hmsg & _)]].
  - split; [reflexivity|]. exists []. rewrite app_nil_r. auto.
  - split; [reflexivity|]. exists [Message "user" p]. split; [reflexivity|].
    right. exists p. auto.
  - split; [exact Hkey|].
    exists [Message "user" p; Message "assistant" response].
    split; [exact Hmsg|]. right. exists p. repeat split; eauto.
Qed.

(** X15.  A turn never rewrites the transcript or the key.  Without a
    prompt, or with an empty one, it appends nothing; otherwise it appends
    the text of the user as typed and then, if a client was built, one
    message of the assistant: the content that the completion call returned,
    in full, or the fixed apology if the call raised.  This holds also for a
    turn that ends by an exception. *)
Theorem chat_turn_appends (now : string) (prompt : option string)
    (s s' : session) (out : list shown) (raised : option string) :
  chat_turn client new_client create_completion json_loads now prompt s
  = (s', out, raised) ->
  session_key s' = session_key s
  /\ session_messages s'
     = (session_messages s
        ++ match prompt with
           | None | Some EmptyString => []
           | Some p =>
               Message "user" p
               :: match fst (initialize_groq_client client new_client
                               (session_key s)) with
                  | None => []
                  | Some c =>
                      [Message "assistant"
                         match create_completion c
                                 (session_messages s
                                  ++ [Message "user" p])%list with
                         | Returns content => content
                         | Raises _ => fallback_reply
                         end]
                  end
           end)%list.
Proof.
  intros H. apply chat_turn_cases in H
    as [(-> & _ & _ & Hp)
       |[(p & notes & -> & Hp & Hinit & -> & _)
        |(p & c & n1 & response & n2 & ld & n3 & -> & Hp & Hinit & Hget & _
          & Hkey & Hmsg & _)]].
  - split; [reflexivity|].
    destruct Hp as [->| ->]; now rewrite app_nil_r.
  - split; [reflexivity|]. rewrite Hinit.
    destruct p as [|ch p]; [congruence | reflexivity].
  - split; [exact Hkey|]. rewrite Hmsg, Hinit. cbn [fst].
    unfold get_groq_response in Hget.
    destruct (create_completion c
                (session_messages s ++ [Message "user" p])%list);
      injection Hget as <- _;
      (destruct p as [|ch p]; [congruence | reflexivity]).
Qed.

Lemma initialize_blank_key (key : string) :
  strip key = "" ->
  initialize_groq_client client new_client key = (None, []).
Proof. unfold initialize_groq_client. now intros ->. Qed.

(** X16.  With a key of blanks a turn stores the text of the user, shows it
    and then the error about the key; the registry is not touched and no
    reply is stored. *)
Theorem chat_turn_without_key (now p : string) (s : session) :
  p <> "" ->
  strip (session_key s) = "" ->
  chat_turn client new_client create_completion json_loads now (Some p) s
  = (Session (session_key s) (session_leads s)
       (session_messages s ++ [Message "user" p])%list,
     [ChatMessage "user" p; key_error], None).
Proof.
  intros Hp Hkey. unfold chat_turn. rewrite (initialize_blank_key _ Hkey).
  destruct p as [|ch p]; [congruence | reflexivity].
Qed.

Lemma extract_fallback :
  extract_lead_data json_loads fallback_reply = (PDict [], []).
Proof. apply extract_no_open, index_of_not_occurs. reflexivity. Qed.

(** X17.  When the completion call raises, the turn does not: the fixed
    apology is stored and shown as the reply of the assistant, after the
    error of the call, and the registry is left as it was. *)
Theorem chat_turn_upstream_failure (now p : string) (s : session)
    (c : client) (e : string) :
  p <> "" ->
  strip (session_key s) <> "" ->
  new_client (strip (session_key s)) = Returns c ->
  create_completion c (session_messages s ++ [Message "user" p])%list
  = Raises e ->
  chat_turn client new_client create_completion json_loads now (Some p) s
  = (Session (session_key s) (session_leads s)
       (session_messages s
        ++ [Message "user" p; Message "assistant" fallback_reply])%list,
     [ChatMessage "user" p;
      Notice (StError ("Error fetching response from Groq: " ++ e));
      ChatMessage "assistant" fallback_reply],
     None).
Proof.
  intros Hp Hkey Hnew Hfail. unfold chat_turn, initialize_groq_client.
  apply String.eqb_neq in Hkey. rewrite Hkey, Hnew. cbn [negb].
  unfold get_groq_response. rewrite Hfail, extract_fallback.
  destruct p as [|ch p]; [congruence|].
  cbn. now rewrite <- app_assoc.
Qed.

(** ** One run of the page *)

Lemma bubbles_app (a b : list shown) :
  bubbles (a ++ b)%list = (bubbles a ++ bubbles b)%list.
Proof. apply filter_app. Qed.

Lemma metrics_app (a b : list shown) :
  metrics (a ++ b)%list = (metrics a ++ metrics b)%list.
Proof. apply filter_app. Qed.

Lemma bubbles_notices (l : list notice) : bubbles (map Notice l) = [].
Proof. induction l as [|n l IH]; [reflexivity | exact IH]. Qed.

Lemma metrics_notices (l : list notice) : metrics (map Notice l) = [].
Proof. induction l as [|n l IH]; [reflexivity | exact IH]. Qed.

Lemma bubbles_history (l : list message) :
  bubbles (render_history l) = render_history l.
Proof.
  induction l as [|m l IH]; [reflexivity|]. cbn. fold (render_history l).
  fold (bubbles (render_history l)). now rewrite IH.
Qed.

Lemma metrics_history (l : list message) : metrics (render_history l) = [].
Proof. induction l as [|m l IH]; [reflexivity | exact IH]. Qed.

Lemma render_history_app (a b : list message) :
  render_history (a ++ b)%list = (render_history a ++ render_history b)%list.
Proof. apply map_app. Qed.

(** What the sidebar leaves and shows. *)
Lemma sidebar_facts (i : inputs) (s s1 : session) (file file1 : option string)
    (out : list shown) :
  sidebar cell_text quote_cr i s file = (s1, out, file1) ->
  session_leads s1 = session_leads s
  /\ session_messages s1 = session_messages s
  /\ session_key s1
     = (if save_clicked i then api_key_input i else session_key s)
  /\ bubbles out = []
  /\ metrics out
     = [Metric "Hot Leads" (count_quality "hot" (session_leads s));
        Metric "Warm Leads" (count_quality "warm" (session_leads s));
        Metric "Cold Leads" (count_quality "cold" (session_leads s))].
Proof.
  unfold sidebar.
  destruct (save_clicked i), (export_clicked i);
    cbn [session_leads session_messages session_key];
    try destruct (export_leads cell_text quote_cr (session_leads s) file)
      as [notes file'];
    intros [= <- <- <-];
    try pose proof (bubbles_notices notes) as Hb;
    try pose proof (metrics_notices notes) as Hm;
    unfold bubbles, metrics in *; cbn [filter app];
    rewrite ?Hb, ?Hm; repeat split.
Qed.

Lemma init_chat_facts (s : session) :
  session_leads (init_chat s) = session_leads s
  /\ session_key (init_chat s) = session_key s
  /\ session_messages (init_chat s)
     = match session_messages s with
       | [] => [greeting]
       | _ :: _ => session_messages s
       end.
Proof.
  unfold init_chat. destruct (session_messages s) eqn:E; cbn; auto.
Qed.

(** A run is the sidebar, the greeting, the history and a turn. *)
Lemma page_run_parts (i : inputs) (s s' : session) (file file' : option string)
    (out : list shown) (raised : option string) :
  page_run client new_client create_completion json_loads cell_text quote_cr
    i s file
  = (s', out, file', raised) ->
  exists s1 out1 out3,
    sidebar cell_text quote_cr i s file = (s1, out1, file')
    /\ chat_turn client new_client create_completion json_loads (clock i)
         (chat_input i) (init_chat s1)
       = (s', out3, raised)
    /\ out = (out1 ++ render_history (session_messages (init_chat s1))
              ++ out3)%list.
Proof.
  unfold page_run.
  destruct (sidebar cell_text quote_cr i s file) as [[s1 out1] file1].
  destruct (chat_turn client new_client create_completion json_loads
              (clock i) (chat_input i) (init_chat s1))
    as [[s3 out3] raised3] eqn:Hturn.
  intros [= <- <- <- <-]. exists s1, out1, out3. repeat split. exact Hturn.
Qed.

Lemma history_content_user (p : string) :
  history_content (Message "user" p) = p.
Proof. reflexivity. Qed.

Lemma chat_turn_bubbles (now : string) (prompt : option string)
    (s s' : session) (out : list shown) :
  chat_turn client new_client create_completion json_loads now prompt s
  = (s', out, None) ->
  (render_history (session_messages s) ++ bubbles out)%list
  = render_history (session_messages s').
Proof.
  intros H. apply chat_turn_cases in H
    as [(-> & -> & _)
       |[(p & notes & _ & _ & _ & -> & -> & _)
        |(p & c & n1 & response & n2 & ld & n3 & _ & _ & _ & _ & _
          & _ & Hmsg
          & [(leads' & _ & _ & -> & _)|(e & _ & _ & _ & [=])])]].
  - cbn. now rewrite app_nil_r.
  - cbn [session_messages]. rewrite render_history_app.
    change (ChatMessage "user" p :: map Notice notes ++ [key_error])%list
      with ([ChatMessage "user" p] ++ map Notice notes ++ [key_error])%list.
    rewrite !bubbles_app, bubbles_notices. reflexivity.
  - rewrite Hmsg, render_history_app.
    change (ChatMessage "user" p
            :: map Notice n1 ++ map Notice n2 ++ map Notice n3
            ++ [ChatMessage "assistant" (cut_at_fence response)])%list
      with ([ChatMessage "user" p]
            ++ map Notice n1 ++ map Notice n2 ++ map Notice n3
            ++ [ChatMessage "assistant" (cut_at_fence response)])%list.
    rewrite !bubbles_app, !bubbles_notices.
    change (render_history [Message "user" p; Message "assistant" response])
      with [ChatMessage "user" (history_content (Message "user" p));
            ChatMessage "assistant"
              (history_content (Message "assistant" response))].
    rewrite history_content_cut, history_content_user. reflexivity.
Qed.

(** X18.  A run that ends without an exception shows the transcript it
    leaves, once and in order: the bubbles on the page are the history of
    the stored messages, the reply of the run cut like the others. *)
Theorem page_shows_transcript (i : inputs) (s s' : session)
    (file file' : option string) (out : list shown) :
  page_run client new_client create_completion json_loads cell_text quote_cr
    i s file
  = (s', out, file', None) ->
  bubbles out = render_history (session_messages s').
Proof.
  intros H. apply page_run_parts in H as (s1 & out1 & out3 & Hside & Hturn & ->).
  apply sidebar_facts in Hside as (_ & _ & _ & Hb & _).
  rewrite !bubbles_app, Hb, bubbles_history. cbn [app].
  exact (chat_turn_bubbles _ _ _ _ _ Hturn).
Qed.

Lemma chat_turn_metrics (now : string) (prompt : option string)
    (s s' : session) (out : list shown) (raised : option string) :
  chat_turn client new_client create_completion json_loads now prompt s
  = (s', out, raised) ->
  metrics out = [].
Proof.
  intros H. apply chat_turn_cases in H
    as [(_ & -> & _)
       |[(p & notes & _ & _ & _ & _ & -> & _)
        |(p & c & n1 & response & n2 & ld & n3 & _ & _ & _ & _ & _
          & _ & _
          & [(leads' & _ & _ & -> & _)|(e & _ & _ & -> & _)])]].
  - reflexivity.
  - change (ChatMessage "user" p :: map Notice notes ++ [key_error])%list
      with ([ChatMessage "user" p] ++ map Notice notes ++ [key_error])%list.
    now rewrite !metrics_app, metrics_notices.
  - change (ChatMessage "user" p
            :: map Notice n1 ++ map Notice n2 ++ map Notice n3
            ++ [ChatMessage "assistant" (cut_at_fence response)])%list
      with ([ChatMessage "user" p]
            ++ map Notice n1 ++ map Notice n2 ++ map Notice n3
            ++ [ChatMessage "assistant" (cut_at_fence response)])%list.
    now rewrite !metrics_app, !metrics_notices.
  - change (ChatMessage "user" p
            :: map Notice n1 ++ map Notice n2 ++ map Notice n3)%list
      with ([ChatMessage "user" p]
            ++ map Notice n1 ++ map Notice n2 ++ map Notice n3)%list.
    now rewrite !metrics_app, !metrics_notices.
Qed.

(** X19.  The counters of a run are those of the registry as the run finds
    it: a lead that the turn of this run adds or changes is counted from the
    next run on. *)
Theorem page_counts_registry_before_turn (i : inputs) (s s' : session)
    (file file' : option string) (out : list shown)
    (raised : option string) :
  page_run client new_client create_completion json_loads cell_text quote_cr
    i s file
  = (s', out, file', raised) ->
  metrics out
  = [Metric "Hot Leads" (count_quality "hot" (session_leads s));
     Metric "Warm Leads" (count_quality "warm" (session_leads s));
     Metric "Cold Leads" (count_quality "cold" (session_leads s))].
Proof.
  intros H. apply page_run_parts in H as (s1 & out1 & out3 & Hside & Hturn & ->).
  apply sidebar_facts in Hside as (_ & _ & _ & _ & Hm).
  rewrite !metrics_app, Hm, metrics_history, (chat_turn_metrics _ _ _ _ _ _ Hturn).
  reflexivity.
Qed.

(** ** What every session keeps *)

Lemma extract_builds_dicts (response : string) :
  builds_dicts json_loads ->
  well_formed (fst (extract_lead_data json_loads response)) = true.
Proof.
  intros Hloads.
  destruct (extract_lead_data_trichotomy json_loads response)
    as [[_ ->]|[(pre & tail & _ & _ & _ & ->)
               |(pre & body & rest & _ & _ & _ & ->)]];
    try reflexivity.
  unfold block_outcome.
  destruct (json_loads (strip body)) as [v|e] eqn:E; [|reflexivity].
  exact (Hloads _ _ E).
Qed.

Lemma page_run_leads (i : inputs) (s s' : session)
    (file file' : option string) (out : list shown)
    (raised : option string) :
  builds_dicts json_loads ->
  page_run client new_client create_completion json_loads cell_text quote_cr
    i s file
  = (s', out, file', raised) ->
  session_leads s' = session_leads s
  \/ exists now v,
      well_formed v = true
      /\ update_lead_info now v (session_leads s)
         = Returns (session_leads s').
Proof.
  intros Hloads H.
  apply page_run_parts in H as (s1 & out1 & out3 & Hside & Hturn & _).
  apply sidebar_facts in Hside as (Hleads & _).
  destruct (init_chat_facts s1) as (Hinit & _).
  rewrite <- Hleads, <- Hinit.
  apply chat_turn_cases in Hturn
    as [(-> & _)
       |[(p & notes & _ & _ & _ & -> & _)
        |(p & c & n1 & response & n2 & ld & n3 & _ & _ & _ & _ & Hext
          & _ & _
          & [(leads' & Hrun & <- & _)|(e & _ & -> & _)])]];
    try (now left).
  right. exists (clock i), ld. split; [|exact Hrun].
  pose proof (extract_builds_dicts response Hloads) as Hwf.
  now rewrite Hext in Hwf.
Qed.

Lemma session_registry_reachable (s : session) :
  builds_dicts json_loads ->
  session_reachable client new_client create_completion json_loads cell_text
    quote_cr s ->
  reachable (session_leads s).
Proof.
  intros Hloads. induction 1 as [secret|i s file s' out file' raised _ IH Hrun].
  - constructor.
  - destruct (page_run_leads _ _ _ _ _ _ _ Hloads Hrun)
      as [->|(now & v & Hwf & Hupd)]; [exact IH|].
    exact (reachable_update now v _ _ IH Hwf Hupd).
Qed.

(** X20.  Whatever the user types and clicks and whatever the model
    answers, as long as [json.loads] builds Python values, the registry of a
    session holds no two records whose non-empty emails [==] finds equal,
    two of its records hold the same non-empty email only if it is the float
    [NaN], and each of its records has a [timestamp]. *)
Theorem session_registry_invariant (s : session) :
  builds_dicts json_loads ->
  session_reachable client new_client create_completion json_loads cell_text
    quote_cr s ->
  unique_emails (session_leads s)
  /\ shared_only_nan (session_leads s)
  /\ Forall has_timestamp (session_leads s).
Proof.
  intros Hloads Hs.
  pose proof (session_registry_reachable s Hloads Hs) as Hr.
  split; [|split].
  - now apply reachable_unique_emails.
  - now apply reachable_shared_only_nan.
  - now apply reachable_timestamps.
Qed.

Lemma page_run_messages (i : inputs) (s s' : session)
    (file file' : option string) (out : list shown)
    (raised : option string) :
  page_run client new_client create_completion json_loads cell_text quote_cr
    i s file
  = (s', out, file', raised) ->
  exists new,
    session_messages s'
    = (match session_messages s with
       | [] => [greeting]
       | _ :: _ => session_messages s
       end ++ new)%list
    /\ Forall known_role new.
Proof.
  intros H.
  apply page_run_parts in H as (s1 & out1 & out3 & Hside & Hturn & _).
  apply sidebar_facts in Hside as (_ & Hmsg & _).
  destruct (init_chat_facts s1) as (_ & _ & Hinit).
  rewrite Hmsg in Hinit. rewrite <- Hinit.
  apply chat_turn_messages in Hturn as (_ & new & Hnew & Hshape).
  exists new. split; [exact Hnew|].
  destruct Hshape as [->|(p & _ & _ & [->|(response & ->)])];
    repeat first [ apply Forall_nil
                 | apply Forall_cons; [unfold known_role; cbn; auto|] ].
Qed.

(** X21.  In every session the transcript is empty or starts with the
    greeting of the assistant, and the role of each message is "user" or
    "assistant". *)
Theorem session_transcript_invariant (s : session) :
  session_reachable client new_client create_completion json_loads cell_text
    quote_cr s ->
  (session_messages s = []
   \/ exists rest, session_messages s = greeting :: rest)
  /\ Forall known_role (session_messages s).
Proof.
  induction 1 as [secret|i s file s' out file' raised _ [IHhead IHroles] Hrun].
  - split; [now left | constructor].
  - apply page_run_messages in Hrun as (new & -> & Hnew). split.
    + right. destruct IHhead as [->|(rest & ->)]; cbn; eauto.
    + apply Forall_app. split; [|exact Hnew].
      destruct (session_messages s); [|exact IHroles].
      apply Forall_cons; [|apply Forall_nil]. right. reflexivity.
Qed.

End PageFacts.

(* ================================================================== *)
(** * The reader builds Python values                                  *)
(* ================================================================== *)

Module JsonReaderFacts.
Import JsonReader.

Ltac split_char c := destruct c as [[] [] [] [] [] [] [] []].

Lemma read_value_step (f : nat) (s : string) :
  read_value (S f) s
  = match skip_ws s with
    | EmptyString => None
    | String c t =>
        if Ascii.eqb c "["%char then
          match skip_ws t with
          | EmptyString => read_items f t []
          | String c' rest =>
              if Ascii.eqb c' "]"%char then Some (PList [], rest)
              else read_items f t []
          end
        else if Ascii.eqb c "{"%char then
          match skip_ws t with
          | EmptyString => read_members f t []
          | String c' rest =>
              if Ascii.eqb c' "}"%char then Some (PDict [], rest)
              else read_members f t []
          end
        else if Ascii.eqb c dquote then
          match read_string t with
          | Some (str, rest) => Some (PStr str, rest)
          | None => None
          end
        else read_literal (String c t)
    end.
Proof.
  cbn [read_value]. destruct (skip_ws s) as [|c t]; [reflexivity|].
  split_char c; try reflexivity;
    (destruct (skip_ws t) as [|c' rest]; [reflexivity|]);
    split_char c'; reflexivity.
Qed.

Lemma read_items_step (f : nat) (s : string) (acc : list pyval) :
  read_items (S f) s acc
  = match read_value f s with
    | Some (v, rest) =>
        match skip_ws rest with
        | EmptyString => None
        | String c rest' =>
            if Ascii.eqb c ","%char then read_items f rest' (v :: acc)
            else if Ascii.eqb c "]"%char
                 then Some (PList (rev (v :: acc)), rest')
                 else None
        end
    | None => None
    end.
Proof.
  cbn [read_items]. destruct (read_value f s) as [[v rest]|]; [|reflexivity].
  destruct (skip_ws rest) as [|c rest']; [reflexivity|].
  split_char c; reflexivity.
Qed.

Lemma read_members_step (f : nat) (s : string) (acc : dict) :
  read_members (S f) s acc
  = match skip_ws s with
    | EmptyString => None
    | String c t =>
        if Ascii.eqb c dquote then
          match read_string t with
          | Some (k, rest) =>
              match skip_ws rest with
              | EmptyString => None
              | String c1 rest1 =>
                  if Ascii.eqb c1 ":"%char then
                    match read_value f rest1 with
                    | Some (v, rest2) =>
                        match skip_ws rest2 with
                        | EmptyString => None
                        | String c3 rest3 =>
                            if Ascii.eqb c3 ","%char
                            then read_members f rest3 (dict_set k v acc)
                            else if Ascii.eqb c3 "}"%char
                                 then Some (PDict (dict_set k v acc), rest3)
                                 else None
                        end
                    | None => None
                    end
                  else None
              end
          | None => None
          end
        else None
    end.
Proof.
  cbn [read_members]. destruct (skip_ws s) as [|c t]; [reflexivity|].
  destruct (Ascii.eqb c dquote); [|reflexivity].
  destruct (read_string t) as [[k rest]|]; [|reflexivity].
  destruct (skip_ws rest) as [|c1 rest1]; [reflexivity|].
  split_char c1; try reflexivity.
  destruct (read_value f rest1) as [[v rest2]|]; [|reflexivity].
  destruct (skip_ws rest2) as [|c3 rest3]; [reflexivity|].
  split_char c3; reflexivity.
Qed.

Lemma read_literal_scalar (s : string) (v : pyval) (rest : string) :
  read_literal s = Some (v, rest) -> well_formed v = true.
Proof.
  unfold read_literal.
  repeat match goal with
         | |- context [if prefix ?a s then _ else _] => destruct (prefix a s)
         end;
    try (intros [= <- _]; reflexivity).
  destruct s as [|c t].
  - simpl. discriminate.
  - split_char c;
      match goal with
      | |- context [read_natural ?x] =>
          destruct (read_natural x) as [[n r]|]
      end;
      try discriminate; intros [= <- _]; reflexivity.
Qed.

Lemma read_well_formed (fuel : nat) :
  (forall s v rest, read_value fuel s = Some (v, rest) ->
                    well_formed v = true)
  /\ (forall s acc v rest,
         forallb well_formed acc = true ->
         read_items fuel s acc = Some (v, rest) -> well_formed v = true)
  /\ (forall s acc v rest,
         well_formed (PDict acc) = true ->
         read_members fuel s acc = Some (v, rest) -> well_formed v = true).
Proof.
  induction fuel as [|f (IHv & IHi & IHm)].
  - repeat split; intros; discriminate.
  - split; [|split].
    + intros s v rest. rewrite read_value_step.
      destruct (skip_ws s) as [|c t]; [discriminate|].
      destruct (Ascii.eqb c "["%char).
      { destruct (skip_ws t) as [|c' r]; [now apply IHi|].
        destruct (Ascii.eqb c' "]"%char); [|now apply IHi].
        intros [= <- _]. reflexivity. }
      destruct (Ascii.eqb c "{"%char).
      { destruct (skip_ws t) as [|c' r]; [now apply IHm|].
        destruct (Ascii.eqb c' "}"%char); [|now apply IHm].
        intros [= <- _]. reflexivity. }
      destruct (Ascii.eqb c dquote).
      { destruct (read_string t) as [[str r]|]; [|discriminate].
        intros [= <- _]. reflexivity. }
      apply read_literal_scalar.
    + intros s acc v rest Hacc. rewrite read_items_step.
      destruct (read_value f s) as [[x r]|] eqn:Ex; [|discriminate].
      pose proof (IHv _ _ _ Ex) as Hx.
      destruct (skip_ws r) as [|c r']; [discriminate|].
      destruct (Ascii.eqb c ","%char).
      { apply IHi. simpl. now rewrite Hx. }
      destruct (Ascii.eqb c "]"%char); [|discriminate].
      intros [= <- _]. cbn [well_formed]. apply forallb_forall.
      intros y Hy. change (rev acc ++ [x])%list with (rev (x :: acc)) in Hy.
      apply (proj2 (in_rev _ _)) in Hy.
      destruct Hy as [<-|Hy]; [exact Hx|].
      rewrite forallb_forall in Hacc. now apply Hacc.
    + intros s acc v rest Hacc. rewrite read_members_step.
      destruct (skip_ws s) as [|c t]; [discriminate|].
      destruct (Ascii.eqb c dquote); [|discriminate].
      destruct (read_string t) as [[k r]|]; [|discriminate].
      destruct (skip_ws r) as [|c1 r1]; [discriminate|].
      destruct (Ascii.eqb c1 ":"%char); [|discriminate].
      destruct (read_value f r1) as [[x r2]|] eqn:Ex; [|discriminate].
      pose proof (IHv _ _ _ Ex) as Hx.
      assert (well_formed (PDict (dict_set k x acc)) = true) as Hset
          by now apply well_formed_dict_set.
      destruct (skip_ws r2) as [|c3 r3]; [discriminate|].
      destruct (Ascii.eqb c3 ","%char); [now apply IHm|].
      destruct (Ascii.eqb c3 "}"%char); [|discriminate].
      now intros [= <- _].
Qed.

(** [json_reader] never builds a dict with a key twice. *)
Lemma json_reader_builds_dicts : builds_dicts json_reader.
Proof.
  intros text v. unfold json_reader.
  destruct (read_value (2 * String.length text + 2) text)
    as [[x rest]|] eqn:E; [|discriminate].
  destruct (skip_ws rest); [|discriminate]. intros [= <-].
  exact (proj1 (read_well_formed _) _ _ _ E).
Qed.

End JsonReaderFacts.

(* ================================================================== *)
(** * The first run of a session                                       *)
(* ================================================================== *)

Lemma chat_turn_appends_witness :
  session_key (fst (fst demo_turn)) = "gsk"
  /\ session_messages (fst (fst demo_turn))
     = [Message "user" "hi"; Message "assistant" scenario_reply].
Proof.
  exact (chat_turn_appends unit demo_client
           (demo_completion (Returns scenario_reply)) JsonReader.json_reader
           "T1" (Some "hi") (initial_session "gsk")
           (fst (fst demo_turn)) (snd (fst demo_turn)) (snd demo_turn)
           eq_refl).
Defined.

Lemma chat_turn_without_key_witness :
  chat_turn unit demo_client (demo_completion (Returns scenario_reply))
    JsonReader.json_reader "T1" (Some "hi") (initial_session "  ")
  = (Session "  " [] [Message "user" "hi"],
     [ChatMessage "user" "hi"; key_error], None).
Proof.
  apply (chat_turn_without_key unit demo_client
           (demo_completion (Returns scenario_reply)) JsonReader.json_reader
           "T1" "hi" (initial_session "  "));
    [discriminate | reflexivity].
Defined.

Lemma chat_turn_upstream_failure_witness :
  chat_turn unit demo_client (demo_completion (Raises "timeout"))
    JsonReader.json_reader "T1" (Some "hi") (initial_session "gsk")
  = (Session "gsk" []
       [Message "user" "hi"; Message "assistant" fallback_reply],
     [ChatMessage "user" "hi";
      Notice (StError "Error fetching response from Groq: timeout");
      ChatMessage "assistant" fallback_reply],
     None).
Proof.
  apply (chat_turn_upstream_failure unit demo_client
           (demo_completion (Raises "timeout")) JsonReader.json_reader
           "T1" "hi" (initial_session "gsk") tt "timeout");
    [discriminate | discriminate | reflexivity | reflexivity].
Defined.

Lemma demo_run_value :
  page_run unit demo_client (demo_completion (Returns scenario_reply))
    JsonReader.json_reader demo_text false demo_inputs
    (initial_session "gsk") None
  = (Session "gsk"
       [[("email", PStr "a@b.com"); ("lead_quality", PStr "hot");
         ("timestamp", PStr "T1")]]
       [greeting; Message "user" "hi"; Message "assistant" scenario_reply],
     [Metric "Hot Leads" 0; Metric "Warm Leads" 0; Metric "Cold Leads" 0;
      ChatMessage "assistant" "Hello! How can I assist you today?";
      ChatMessage "user" "hi"; ChatMessage "assistant" "Thanks! "],
     None, None).
Proof. reflexivity. Qed.

Lemma page_shows_transcript_witness :
  bubbles
    [Metric "Hot Leads" 0; Metric "Warm Leads" 0; Metric "Cold Leads" 0;
     ChatMessage "assistant" "Hello! How can I assist you today?";
     ChatMessage "user" "hi"; ChatMessage "assistant" "Thanks! "]
  = render_history
      [greeting; Message "user" "hi"; Message "assistant" scenario_reply].
Proof.
  exact (page_shows_transcript unit demo_client
           (demo_completion (Returns scenario_reply)) JsonReader.json_reader
           demo_text false demo_inputs (initial_session "gsk") _ None None _
           demo_run_value).
Defined.

Lemma page_counts_registry_before_turn_witness :
  metrics
    [Metric "Hot Leads" 0; Metric "Warm Leads" 0; Metric "Cold Leads" 0;
     ChatMessage "assistant" "Hello! How can I assist you today?";
     ChatMessage "user" "hi"; ChatMessage "assistant" "Thanks! "]
  = [Metric "Hot Leads" (count_quality "hot" []);
     Metric "Warm Leads" (count_quality "warm" []);
     Metric "Cold Leads" (count_quality "cold" [])].
Proof.
  exact (page_counts_registry_before_turn unit demo_client
           (demo_completion (Returns scenario_reply)) JsonReader.json_reader
           demo_text false demo_inputs (initial_session "gsk") _ None None _ None
           demo_run_value).
Defined.

Lemma demo_session_reachable :
  session_reachable unit demo_client
    (demo_completion (Returns scenario_reply)) JsonReader.json_reader
    demo_text false
    (Session "gsk"
       [[("email", PStr "a@b.com"); ("lead_quality", PStr "hot");
         ("timestamp", PStr "T1")]]
       [greeting; Message "user" "hi"; Message "assistant" scenario_reply]).
Proof.
  eapply session_run; [apply (session_start _ _ _ _ _ _ "gsk")|].
  exact demo_run_value.
Qed.

Lemma session_registry_invariant_witness :
  unique_emails
    [[("email", PStr "a@b.com"); ("lead_quality", PStr "hot");
      ("timestamp", PStr "T1")]]
  /\ shared_only_nan
       [[("email", PStr "a@b.com"); ("lead_quality", PStr "hot");
         ("timestamp", PStr "T1")]]
  /\ Forall has_timestamp
       [[("email", PStr "a@b.com"); ("lead_quality", PStr "hot");
         ("timestamp", PStr "T1")]].
Proof.
  exact (session_registry_invariant unit demo_client
           (demo_completion (Returns scenario_reply)) JsonReader.json_reader
           demo_text false _ JsonReaderFacts.json_reader_builds_dicts
           demo_session_reachable).
Defined.

Lemma session_transcript_invariant_witness :
  ([greeting; Message "user" "hi"; Message "assistant" scenario_reply] = []
   \/ exists rest,
       [greeting; Message "user" "hi"; Message "assistant" scenario_reply]
       = greeting :: rest)
  /\ Forall known_role
       [greeting; Message "user" "hi"; Message "assistant" scenario_reply].
Proof.
  exact (session_transcript_invariant unit demo_client
           (demo_completion (Returns scenario_reply)) JsonReader.json_reader
           demo_text false _ demo_session_reachable).
Defined.

Lemma history_content_shows_prefix_witness :
  (exists rest,
      content (Message "user" "see ```json") =
      history_content (Message "user" "see ```json") ++ rest)
  /\ history_content (Message "user" "see ```json") = "see ```json"
  /\ ~ occurs fence_open (history_content (Message "assistant" scenario_reply)).
Proof.
  destruct (history_content_shows_prefix (Message "user" "see ```json"))
    as (Hprefix & Huser & _).
  destruct (history_content_shows_prefix (Message "assistant" scenario_reply))
    as (_ & _ & Hfence).
  split; [exact Hprefix|]. split.
  - apply Huser. discriminate.
  - apply Hfence. reflexivity.
Defined.

Lemma initialize_groq_client_strips_key_witness :
  initialize_groq_client unit demo_client "  "
  = (None, [])
  /\ (strip " gsk " <> "" /\ demo_client (strip " gsk ") = Returns tt).
Proof.
  destruct (initialize_groq_client_strips_key unit demo_client "  ")
    as (_ & Hblank & _).
  destruct (initialize_groq_client_strips_key unit demo_client " gsk ")
    as (_ & _ & Hused).
  split.
  - apply Hblank. reflexivity.
  - apply (Hused tt). reflexivity.
Defined.
